(** * ubercluster: the cluster-selection scheduler, the inception aggregator
      and the process tracker's environment window

    A shallow embedding of
      - [cmd/uc/scheduler.go]   (load fetch, the three schedulers),
      - the inception proxy     (fan-out reads, job-identifier routing),
      - [simpletracker/os.go]   (the lock around the environment overlay),
    followed by the properties the specification states about them. *)

From Stdlib Require Import ZArith List String Ascii Bool Lia Permutation.
From Stdlib Require Import Floats.SpecFloat Floats.PrimFloat Floats.FloatOps.
Import ListNotations.

Local Open Scope Z_scope.
Set Warnings "-inexact-float".

(** ** Go values shared by all parts *)

(** A Go call either returns or panics. *)
Inductive result (A : Type) : Type :=
| Ok (a : A)
| Panic (msg : string).
Arguments Ok {A} a.
Arguments Panic {A} msg.

Definition bind {A B : Type} (r : result A) (k : A -> result B) : result B :=
  match r with
  | Ok a => k a
  | Panic m => Panic m
  end.

Notation "x <- r ;; k" := (bind r (fun x => k))
  (at level 61, r at next level, right associativity).

(** A Go pair [(value, error)] of which the caller reads the value only
    when the error is nil. *)
Inductive fallible (A : Type) : Type :=
| Success (a : A)
| Failure (err : string).
Arguments Success {A} a.
Arguments Failure {A} err.

(** [float64] is IEEE 754 binary64: 53 bits of precision, exponent bound 1024. *)
Definition float64 : Type := spec_float.

Definition f64 (x : PrimFloat.float) : float64 := Prim2SF x.
Definition f64_sub : float64 -> float64 -> float64 := SFsub 53 1024.
Definition f64_mul : float64 -> float64 -> float64 := SFmul 53 1024.
Definition f64_lt : float64 -> float64 -> bool := SFltb.
Definition f64_le : float64 -> float64 -> bool := SFleb.

(** [math.MaxFloat64]. *)
Definition MaxFloat64 : float64 := SFmax_float 53 1024.

(** The zero value of a [float64] variable. *)
Definition f64_zero : float64 := S754_zero false.

(** [int64] as an integer with its two's complement wrap-around. *)
Definition int64_min : Z := - 2 ^ 63.
Definition int64_max : Z := 2 ^ 63 - 1.
Definition wrap64 (z : Z) : Z := (z + 2 ^ 63) mod 2 ^ 64 - 2 ^ 63.
Definition add64 (a b : Z) : Z := wrap64 (a + b).
Definition sub64 (a b : Z) : Z := wrap64 (a - b).

(** The integer part of a finite float: the fraction is discarded, that is,
    truncation towards zero. *)
Definition f64_trunc (f : float64) : option Z :=
  match f with
  | S754_zero _ => Some 0
  | S754_finite s m e => Some (cond_Zopp s (Z.shiftl (Zpos m) e))
  | S754_infinity _ | S754_nan => None
  end.

(** The conversion [int64(f)].  Go discards the fraction; when the value does
    not fit, the result is implementation-dependent, and amd64's CVTTSD2SI
    gives the smallest [int64]. *)
Definition int64_of_float64 (f : float64) : Z :=
  match f64_trunc f with
  | Some z => if (int64_min <=? z) && (z <=? int64_max) then z else int64_min
  | None => int64_min
  end.

(** The cluster records of the configuration, with the fields the code reads:
    [c.Name], [c.Address], [c.ProtocolVersion] and [conf.Cluster]. *)
Record ClusterConfig : Type := mkCluster {
  Name : string;
  Address : string;
  ProtocolVersion : string
}.

Record Config : Type := mkConfig {
  Cluster : list ClusterConfig
}.

(** ** cmd/uc/scheduler.go *)

Module Scheduler.

(** What a peer answers to a load request, as [getClusterLoad] sees it:
    [UberGet] fails, or it returns a body on which [decoder.Decode(&load)]
    leaves [load_after] in the variable [load] and returns [decode_err]
    ([None] is a nil error). *)
Inductive reply : Type :=
| HttpError
| Body (load_after : float64) (decode_err : option string).

Definition Network : Type := string -> reply.

(** [lv.load[index] = load]; an index out of range panics. *)
Fixpoint store (l : list float64) (index : nat) (v : float64)
  : result (list float64) :=
  match l, index with
  | [], _ => Panic "index out of range"
  | _ :: tl, O => Ok (v :: tl)
  | hd :: tl, S i => tl' <- store tl i v ;; Ok (hd :: tl')
  end.

(** [getClusterLoad]: the slot is written in the branch [err != nil]; the
    other branch only logs. *)
Definition getClusterLoad (net : Network) (load : list float64) (index : nat)
    (request : string) : result (list float64) :=
  match net request with
  | Body load_after decode_err =>
      match decode_err with
      | Some _ => store load index load_after
      | None => Ok load
      end
  | HttpError => Ok load
  end.

(** [fmt.Sprintf("%s/%s/drmsload", addr, ver)]. *)
Definition load_request (c : ClusterConfig) : string :=
  (Address c ++ "/" ++ ProtocolVersion c ++ "/drmsload")%string.

(** The goroutines started by [getAllLoadValues]: goroutine [i] writes slot
    [i] only, so every schedule gives the slice the index order gives. *)
Fixpoint fetch_all (net : Network) (cs : list ClusterConfig) (i : nat)
    (load : list float64) : result (list float64) :=
  match cs with
  | [] => Ok load
  | c :: rest =>
      load' <- getClusterLoad net load i (load_request c) ;;
      fetch_all net rest (S i) load'
  end.

Definition getAllLoadValues (conf : Config) (net : Network)
  : result (list float64) :=
  fetch_all net (Cluster conf) O
            (repeat f64_zero (List.length (Cluster conf))).

(** The weight of one cluster: [int64((1.0 - v) * 10000)]. *)
Definition weight (v : float64) : Z :=
  int64_of_float64 (f64_mul (f64_sub (f64 1.0) v) (f64 10000)).

(** The first loop of [probabilisticSelection]; [prev] is [likelyhood[k-1]],
    absent for [k = 0]. *)
Fixpoint likelyhood_from (prev : option Z) (loads : list float64) : list Z :=
  match loads with
  | [] => []
  | v :: rest =>
      let cur := match prev with
                 | Some p => add64 p (weight v)
                 | None => weight v
                 end in
      cur :: likelyhood_from (Some cur) rest
  end.

Definition likelyhood (loads : list float64) : list Z :=
  likelyhood_from None loads.

(** [rand.Int63n(n)]: panics for [n <= 0]; otherwise the accepted raw value
    [raw] of the generator, reduced modulo [n]. *)
Definition Int63n (raw : Z) (n : Z) : result Z :=
  if n <=? 0 then Panic "invalid argument to Int63n" else Ok (raw mod n).

(** The second loop: the first index whose entry exceeds [selection]. *)
Fixpoint first_above (k : Z) (l : list Z) (selection : Z) : Z :=
  match l with
  | [] => -1
  | v :: rest => if v >? selection then k else first_above (k + 1) rest selection
  end.

Definition probabilisticSelection (raw : Z) (loads : list float64) : result Z :=
  if Z.of_nat (List.length loads) <=? 0 then Ok (-1)
  else
    let lh := likelyhood loads in
    let total := last lh 0 in
    if total <=? 0 then Ok (-1)
    else
      selection <- Int63n raw (sub64 total 1) ;;
      Ok (first_above 0 lh selection).

(** [conf.Cluster[i].Name]. *)
Definition cluster_name (conf : Config) (i : nat) : result string :=
  match nth_error (Cluster conf) i with
  | Some c => Ok (Name c)
  | None => Panic "index out of range"
  end.

Definition ProbSched_SelectCluster (conf : Config) (net : Network) (raw : Z)
  : result string :=
  loads <- getAllLoadValues conf net ;;
  selection <- probabilisticSelection raw loads ;;
  if selection >=? 0 then cluster_name conf (Z.to_nat selection)
  else Ok "default"%string.

(** [minLoad]: the state of the loop is [(min, index)]. *)
Fixpoint minLoad_loop (load : list float64) (k : nat) (min : float64)
    (index : nat) : nat :=
  match load with
  | [] => index
  | v :: rest =>
      if f64_lt v min then minLoad_loop rest (S k) v k
      else minLoad_loop rest (S k) min index
  end.

Definition minLoad (load : list float64) : nat :=
  minLoad_loop load O MaxFloat64 O.

Definition LoadBasedSched_SelectCluster (conf : Config) (net : Network)
  : result string :=
  load <- getAllLoadValues conf net ;;
  cluster_name conf (minLoad load).

End Scheduler.


(** ** The inception proxy: uc as a proxy of proxies *)

Module Inception.

(** What a call leaves behind: the requests sent to peers, and the log lines
    (a log line is kept by the constant text its call starts with). *)
Inductive event : Type :=
| Log (msg : string)
| ReqJobs (address state user : string)
| ReqJob (address jobid : string)
| ReqMachines (address filter : string)
| ReqQueues (address filter : string)
| ReqJobCategories (address jsession category : string).

(** A call that leaves events behind and returns or panics. *)
Definition Proc (A : Type) : Type := (result A * list event)%type.

Definition ret {A : Type} (a : A) : Proc A := (Ok a, []).
Definition emit (e : event) : Proc unit := (Ok tt, [e]).
Definition panic {A : Type} (msg : string) : Proc A := (Panic msg, []).

Definition pbind {A B : Type} (m : Proc A) (k : A -> Proc B) : Proc B :=
  match m with
  | (Ok a, t) => let '(r, t') := k a in (r, t ++ t')
  | (Panic msg, t) => (Panic msg, t)
  end.

Declare Scope proc_scope.
Delimit Scope proc_scope with proc.
Notation "x <- m ;; k" := (pbind m (fun x => k))
  (at level 61, m at next level, right associativity) : proc_scope.
Notation "m ;; k" := (pbind m (fun _ => k))
  (at level 61, right associativity) : proc_scope.

(** [strings.Contains(s, sep)] and [strings.Split(s, sep)] for a separator
    of one byte, which is what ["@"] is. *)
Fixpoint Contains (s : string) (sep : ascii) : bool :=
  match s with
  | EmptyString => false
  | String c rest => if Ascii.eqb c sep then true else Contains rest sep
  end.

Fixpoint Split (s : string) (sep : ascii) : list string :=
  match s with
  | EmptyString => [EmptyString]
  | String c rest =>
      if Ascii.eqb c sep then EmptyString :: Split rest sep
      else match Split rest sep with
           | part :: parts => String c part :: parts
           | [] => [String c EmptyString]
           end
  end.

Section Aggregator.

(** The records of [pkg/types] pass through the proxy unread. *)
Variables JobInfo Machine Queue JobTemplate : Type.

(** The calls of [*Request], with what the peer at the address answers.
    [GetJobs] answers a slice, nil ([None]) when it has nothing. *)
Record Request : Type := mkRequest {
  GetJobs : string -> string -> string -> option (list JobInfo);
  GetJob : string -> string -> fallible JobInfo;
  GetMachines : string -> string -> fallible (list Machine);
  GetQueues : string -> string -> fallible (list Queue);
  GetJobCategories : string -> string -> string -> list string
}.

(** [NewRequest(certFile, keyFile, &otp)]. *)
Variable NewRequest : string -> string -> string -> Request.

(** [GetClusterAddress(name)]: address and name of a cluster, or an error. *)
Variable GetClusterAddress : string -> fallible (string * string).

Record Inception : Type := mkInception {
  inceptionAddress : string;
  config : Config;
  request : Request
}.

(** [NewInception] sets [config] and [request]; [inceptionAddress] keeps
    the zero value of a string. *)
Definition NewInception (certFile keyFile otp : string) (config : Config)
  : Inception :=
  {| inceptionAddress := EmptyString;
     config := config;
     request := NewRequest certFile keyFile otp |}.

Local Open Scope proc_scope.
Local Open Scope string_scope.

Definition requestJobInfos (i : Inception) (ji : list JobInfo)
    (state address : string) : Proc (list JobInfo) :=
  emit (Log "Requesting from: ") ;;
  emit (ReqJobs address state "") ;;
  let jis := GetJobs (request i) address state "" in
  emit (Log "Got following jobinfos: ") ;;
  ret match jis with
      | Some l => (ji ++ l)%list
      | None => ji
      end.

(** [fmt.Sprintf("%s/", c.Address) == i.inceptionAddress]. *)
Definition own_address (i : Inception) (c : ClusterConfig) : bool :=
  String.eqb (Address c ++ "/") (inceptionAddress i).

(** The loop of [GetJobInfosByFilter]: the addresses of the goroutines it
    starts, and the lines it logs for the clusters it skips. *)
Fixpoint fan_out (i : Inception) (cs : list ClusterConfig)
  : Proc (list string) :=
  match cs with
  | [] => ret []
  | c :: rest =>
      if own_address i c then
        emit (Log "Skipping own address ") ;;
        fan_out i rest
      else
        started <- fan_out i rest ;;
        ret ((Address c ++ "/v1") :: started)
  end.

(** The goroutines take the lock one after the other; [order] lists their
    positions in the order in which they do. *)
Definition scheduled {A : Type} (order : list nat) (l : list A) : list A :=
  flat_map (fun k => match nth_error l k with
                     | Some a => [a]
                     | None => []
                     end) order.

Fixpoint run_goroutines (i : Inception) (ji : list JobInfo)
    (addresses : list string) : Proc (list JobInfo) :=
  match addresses with
  | [] => ret ji
  | address :: rest =>
      ji' <- requestJobInfos i ji "all" address ;;
      run_goroutines i ji' rest
  end.

Definition GetJobInfosByFilter (i : Inception) (filtered : bool)
    (filter : JobInfo) (order : list nat) : Proc (list JobInfo) :=
  started <- fan_out i (Cluster (config i)) ;;
  run_goroutines i [] (scheduled order started).

(** The loop of [getJobFromCluster]: address and version of the first
    cluster of that name. *)
Fixpoint find_cluster (cs : list ClusterConfig) (clustername : string)
    (address version : string) : string * string :=
  match cs with
  | [] => (address, version)
  | c :: rest =>
      if String.eqb (Name c) clustername
      then (Address c, ProtocolVersion c)
      else find_cluster rest clustername address version
  end.

Definition getJobFromCluster (i : Inception) (clustername jobid : string)
  : Proc (fallible JobInfo) :=
  let '(address, version) :=
    find_cluster (Cluster (config i)) clustername "" "v1" in
  let peers := request i in
  if negb (String.eqb address "") then
    let request := address ++ version in
    emit (Log "GetJobFromCluster request") ;;
    emit (ReqJob request jobid) ;;
    match GetJob peers request jobid with
    | Success job => ret (Success job)
    | Failure err =>
        emit (Log "error during requesting job: ") ;;
        ret (Failure err)
    end
  else
    ret (Failure ("Couldn't find clustername in config: " ++ clustername)).

(** The pointer a caller of [getJobFromCluster] keeps when it drops the
    error: nil when there is an error. *)
Definition job_or_nil (r : fallible JobInfo) : option JobInfo :=
  match r with
  | Success job => Some job
  | Failure _ => None
  end.

Definition GetJobInfo (i : Inception) (jobid : string)
  : Proc (option JobInfo) :=
  if Contains jobid "@" then
    let jobAtCluster := Split jobid "@" in
    match jobAtCluster with
    | [job_part; cluster_part] =>
        job <- getJobFromCluster i cluster_part job_part ;;
        ret (job_or_nil job)
    | _ =>
        emit (Log "Wrong job identifier (expected jobid@cluster or jobid) but is ") ;;
        ret None
    end
  else
    job <- getJobFromCluster i "default" jobid ;;
    ret (job_or_nil job).

Fixpoint GetAllMachines_loop (i : Inception) (cs : list ClusterConfig)
    (allmachines : list Machine) : Proc (list Machine * option string) :=
  match cs with
  | [] => ret (allmachines, None)
  | c :: rest =>
      emit (Log "Requesting from: ") ;;
      if own_address i c then GetAllMachines_loop i rest allmachines
      else
        match GetClusterAddress (Name c) with
        | Failure err => emit (Log err) ;; panic err
        | Success (address, _) =>
            emit (ReqMachines address "all") ;;
            match GetMachines (request i) address "all" with
            | Success ms =>
                emit (Log "Appending: ") ;;
                GetAllMachines_loop i rest (allmachines ++ ms)%list
            | Failure _ =>
                emit (Log "Error while requesting machines from ") ;;
                GetAllMachines_loop i rest allmachines
            end
        end
  end.

Definition GetAllMachines (i : Inception) (machines : list string)
  : Proc (list Machine * option string) :=
  GetAllMachines_loop i (Cluster (config i)) [].

Fixpoint GetAllQueues_loop (i : Inception) (cs : list ClusterConfig)
    (allqueues : list Queue) : Proc (list Queue * option string) :=
  match cs with
  | [] => ret (allqueues, None)
  | c :: rest =>
      emit (Log "Requesting from: ") ;;
      if own_address i c then GetAllQueues_loop i rest allqueues
      else
        match GetClusterAddress (Name c) with
        | Failure err => emit (Log err) ;; panic err
        | Success (address, _) =>
            emit (ReqQueues address "all") ;;
            match GetQueues (request i) address "all" with
            | Success qs =>
                emit (Log "Appending: ") ;;
                GetAllQueues_loop i rest (allqueues ++ qs)%list
            | Failure _ =>
                emit (Log "Error while requesting queues from ") ;;
                GetAllQueues_loop i rest allqueues
            end
        end
  end.

Definition GetAllQueues (i : Inception) (queues : list string)
  : Proc (list Queue * option string) :=
  GetAllQueues_loop i (Cluster (config i)) [].

Definition GetAllSessions (i : Inception) (session : list string)
  : Proc (list string * option string) :=
  emit (Log "GetAllSessions() not implemented") ;;
  ret ([], None).

Fixpoint GetAllCategories_loop (i : Inception) (cs : list ClusterConfig)
    (cat : list string) : Proc (list string * option string) :=
  match cs with
  | [] => ret (cat, None)
  | c :: rest =>
      emit (Log "Requesting from: ") ;;
      if own_address i c then
        emit (Log "Skipping own address") ;;
        GetAllCategories_loop i rest cat
      else
        match GetClusterAddress (Name c) with
        | Failure err => emit (Log err) ;; panic err
        | Success (address, _) =>
            emit (ReqJobCategories address "ubercluster" "all") ;;
            GetAllCategories_loop i rest
              (cat ++ GetJobCategories (request i) address "ubercluster" "all")%list
        end
  end.

Definition GetAllCategories (i : Inception)
  : Proc (list string * option string) :=
  GetAllCategories_loop i (Cluster (config i)) [].

(** [RunJob] and [JobOperation] return the empty string and a nil error. *)
Definition RunJob (i : Inception) (template : JobTemplate)
  : string * option string :=
  ("", None).

Definition JobOperation (i : Inception)
    (jobsessionname operation jobid : string) : string * option string :=
  ("", None).

(** [inceptionMode]: the proxy listens at [address] and serves with the
    inception made from the configuration. *)
Record Server : Type := mkServer {
  listen_address : string;
  implementer : Inception
}.

Definition inceptionMode (certFile keyFile otp address : string)
    (config : Config) : Server :=
  {| listen_address := address;
     implementer := NewInception certFile keyFile otp config |}.

End Aggregator.

Arguments mkRequest {JobInfo Machine Queue}.
Arguments GetJobs {JobInfo Machine Queue}.
Arguments GetJob {JobInfo Machine Queue}.
Arguments GetMachines {JobInfo Machine Queue}.
Arguments GetQueues {JobInfo Machine Queue}.
Arguments GetJobCategories {JobInfo Machine Queue}.
Arguments mkInception {JobInfo Machine Queue}.
Arguments inceptionAddress {JobInfo Machine Queue}.
Arguments config {JobInfo Machine Queue}.
Arguments request {JobInfo Machine Queue}.
Arguments NewInception {JobInfo Machine Queue}.
Arguments requestJobInfos {JobInfo Machine Queue}.
Arguments own_address {JobInfo Machine Queue}.
Arguments fan_out {JobInfo Machine Queue}.
Arguments run_goroutines {JobInfo Machine Queue}.
Arguments GetJobInfosByFilter {JobInfo Machine Queue}.
Arguments getJobFromCluster {JobInfo Machine Queue}.
Arguments job_or_nil {JobInfo}.
Arguments GetJobInfo {JobInfo Machine Queue}.
Arguments GetAllMachines_loop {JobInfo Machine Queue}.
Arguments GetAllMachines {JobInfo Machine Queue}.
Arguments GetAllQueues_loop {JobInfo Machine Queue}.
Arguments GetAllQueues {JobInfo Machine Queue}.
Arguments GetAllSessions {JobInfo Machine Queue}.
Arguments GetAllCategories_loop {JobInfo Machine Queue}.
Arguments GetAllCategories {JobInfo Machine Queue}.
Arguments RunJob {JobInfo Machine Queue JobTemplate}.
Arguments JobOperation {JobInfo Machine Queue}.
Arguments mkServer {JobInfo Machine Queue}.
Arguments listen_address {JobInfo Machine Queue}.
Arguments implementer {JobInfo Machine Queue}.
Arguments inceptionMode {JobInfo Machine Queue}.

End Inception.

(** ** simpletracker/os.go: the environment window of StartProcess *)

Module Tracker.

(** The fields of the job template that [StartProcess] reads.  The map
    [JobEnvironment] is kept as the list of its entries, in the order in
    which the loop over it meets them. *)
Record JobTemplate : Type := mkTemplate {
  RemoteCommand : string;
  Args : list string;
  InputPath : string;
  OutputPath : string;
  ErrorPath : string;
  JobEnvironment : list (string * string)
}.

Section Process.

(** The environment of the tracker's own process and the calls of package
    [os] on it. *)
Variable os_env : Type.
Variable Environ : os_env -> list string.
Variable Getenv : os_env -> string -> string.
Variable Setenv : string -> string -> os_env -> os_env.
Variable Unsetenv : string -> os_env -> os_env.

(** [validateJobTemplate(t)]: an error, or nil. *)
Variable validateJobTemplate : JobTemplate -> option string.

(** [cmd.Start()] in the environment the process has at that moment: the
    pid of the child, or an error. *)
Variable Start : JobTemplate -> list string -> fallible nat.

(** A Go [map[string]string]. *)
Definition env_map : Type := list (string * string).

Fixpoint map_set (m : env_map) (key value : string) : env_map :=
  match m with
  | [] => [(key, value)]
  | (k, v) :: rest =>
      if String.eqb k key then (k, value) :: rest
      else (k, v) :: map_set rest key value
  end.

Definition currentEnv (e : os_env) : env_map :=
  fold_left (fun env x => map_set env x (Getenv e x)) (Environ e) [].

Definition restoreEnv (env : env_map) (e : os_env) : os_env :=
  let cleared := fold_left (fun acc x => Unsetenv x acc) (Environ e) e in
  fold_left (fun acc kv => Setenv (fst kv) (snd kv) acc) env cleared.

(** [for key, value := range t.JobEnvironment { os.Setenv(key, value) }]. *)
Definition overlay (t : JobTemplate) (e : os_env) : os_env :=
  fold_left (fun acc kv => Setenv (fst kv) (snd kv) acc) (JobEnvironment t) e.

(** Where a call of [StartProcess] stands: the statement it executes
    next.  The pipes of the I/O redirection, set up between the validation
    and the mutex, and the goroutine [TrackProcess], started after
    [cmd.Start()], touch neither the environment nor the mutex and have no
    statement here. *)
Inductive pc : Type :=
| AtValidate                       (* validateJobTemplate(t) *)
| AtDeclareMutex                   (* var mtx sync.Mutex *)
| AtLock                           (* mtx.Lock() *)
| AtCurrentEnv                     (* env := currentEnv() *)
| AtOverlay                        (* the loop of os.Setenv *)
| AtStart                          (* cmd.Start() *)
| AtRestoreEnv (pid : nat)         (* restoreEnv(env) *)
| AtUnlock (pid : nat)             (* mtx.Unlock() *)
| AtUnlockFailed (err : string)    (* mtx.Unlock() after a failed Start *)
| Returned (r : fallible nat).

(** One call of [StartProcess] with its local variables: [mtx] is the place
    of its mutex among the mutexes of the process, [env] its snapshot. *)
Record call : Type := mkCall {
  jobid : string;
  t : JobTemplate;
  at_pc : pc;
  mtx : nat;
  env : env_map
}.

(** The process: its environment, its mutexes ([true] is locked), the calls
    of [StartProcess] under way, and the children started so far, each with
    the environment it was started in. *)
Record state : Type := mkState {
  process_env : os_env;
  mutexes : list bool;
  calls : list call;
  children : list (string * list string)
}.

Fixpoint set_nth {A : Type} (l : list A) (n : nat) (a : A) : list A :=
  match l, n with
  | [], _ => []
  | _ :: tl, O => a :: tl
  | hd :: tl, S n' => hd :: set_nth tl n' a
  end.

Definition goto (c : call) (p : pc) : call :=
  {| jobid := jobid c; t := t c; at_pc := p; mtx := mtx c; env := env c |}.

(** One statement of call number [n]; [None] when the call cannot move
    (it waits for its mutex, or it has returned). *)
Definition step (s : state) (n : nat) : option state :=
  match nth_error (calls s) n with
  | None => None
  | Some c =>
      let update c' e' ms' ch' :=
        Some {| process_env := e'; mutexes := ms';
                calls := set_nth (calls s) n c'; children := ch' |} in
      match at_pc c with
      | AtValidate =>
          match validateJobTemplate (t c) with
          | Some err =>
              update (goto c (Returned (Failure err)))
                     (process_env s) (mutexes s) (children s)
          | None =>
              update (goto c AtDeclareMutex)
                     (process_env s) (mutexes s) (children s)
          end
      | AtDeclareMutex =>
          update {| jobid := jobid c; t := t c; at_pc := AtLock;
                    mtx := List.length (mutexes s); env := env c |}
                 (process_env s) (mutexes s ++ [false]) (children s)
      | AtLock =>
          match nth_error (mutexes s) (mtx c) with
          | Some false =>
              update (goto c AtCurrentEnv) (process_env s)
                     (set_nth (mutexes s) (mtx c) true) (children s)
          | _ => None
          end
      | AtCurrentEnv =>
          update {| jobid := jobid c; t := t c; at_pc := AtOverlay;
                    mtx := mtx c; env := currentEnv (process_env s) |}
                 (process_env s) (mutexes s) (children s)
      | AtOverlay =>
          update (goto c AtStart) (overlay (t c) (process_env s))
                 (mutexes s) (children s)
      | AtStart =>
          match Start (t c) (Environ (process_env s)) with
          | Success pid =>
              update (goto c (AtRestoreEnv pid)) (process_env s) (mutexes s)
                     (children s ++ [(jobid c, Environ (process_env s))])
          | Failure err =>
              update (goto c (AtUnlockFailed err)) (process_env s)
                     (mutexes s) (children s)
          end
      | AtRestoreEnv pid =>
          update (goto c (AtUnlock pid)) (restoreEnv (env c) (process_env s))
                 (mutexes s) (children s)
      | AtUnlock pid =>
          update (goto c (Returned (Success pid))) (process_env s)
                 (set_nth (mutexes s) (mtx c) false) (children s)
      | AtUnlockFailed err =>
          update (goto c (Returned (Failure err))) (process_env s)
                 (set_nth (mutexes s) (mtx c) false) (children s)
      | Returned _ => None
      end
  end.

(** An interleaving: the calls move in the order the schedule names them. *)
Fixpoint run (schedule : list nat) (s : state) : option state :=
  match schedule with
  | [] => Some s
  | n :: rest =>
      match step s n with
      | Some s' => run rest s'
      | None => None
      end
  end.

(** A call is inside its overlay/restore window from the moment
    [mtx.Lock()] returned until [mtx.Unlock()] is done. *)
Definition in_window (c : call) : bool :=
  match at_pc c with
  | AtCurrentEnv | AtOverlay | AtStart
  | AtRestoreEnv _ | AtUnlock _ | AtUnlockFailed _ => true
  | AtValidate | AtDeclareMutex | AtLock | Returned _ => false
  end.

(** The calls of [StartProcess(jobid, t, _)] at their entry. *)
Definition enter (jobid : string) (t : JobTemplate) : call :=
  {| jobid := jobid; t := t; at_pc := AtValidate; mtx := O; env := [] |}.

Definition start_state (e : os_env) (cs : list call) : state :=
  {| process_env := e; mutexes := []; calls := cs; children := [] |}.

End Process.

Arguments mkState {os_env}.
Arguments process_env {os_env}.
Arguments mutexes {os_env}.
Arguments calls {os_env}.
Arguments children {os_env}.
Arguments currentEnv {os_env}.
Arguments restoreEnv {os_env}.
Arguments overlay {os_env}.
Arguments step {os_env}.
Arguments run {os_env}.
Arguments start_state {os_env}.

End Tracker.

(** ** cmd/uc/scheduler.go: the random scheduler and the making of a
       scheduler *)

Module SchedulerSetup.
Import Scheduler.

(** [rand.Intn(n)]: panics for [n <= 0]; otherwise the accepted raw value of
    the generator, reduced modulo [n]. *)
Definition Intn (raw : Z) (n : Z) : result Z :=
  if n <=? 0 then Panic "invalid argument to Intn" else Ok (raw mod n).

(** [rs.conf.Cluster[rand.Intn(len(rs.conf.Cluster))].Name]. *)
Definition RandomSched_SelectCluster (conf : Config) (raw : Z)
  : result string :=
  k <- Intn raw (Z.of_nat (List.length (Cluster conf))) ;;
  cluster_name conf (Z.to_nat k).

(** The three implementations of the interface [Scheduler]; the http client
    they carry is what [Network] stands for. *)
Inductive Scheduler : Type :=
| ProbSched (conf : Config)
| RandomSched (conf : Config)
| LoadBasedSched (conf : Config).

(** [s.SelectCluster()] through the interface. *)
Definition SelectCluster (s : Scheduler) (net : Network) (raw : Z)
  : result string :=
  match s with
  | ProbSched conf => ProbSched_SelectCluster conf net raw
  | RandomSched conf => RandomSched_SelectCluster conf raw
  | LoadBasedSched conf => LoadBasedSched_SelectCluster conf net
  end.

(** [SchedulerType] is an [int]; the constants count from 0. *)
Definition ProbabilisticSchedulerType : Z := 0.
Definition RandomSchedulerType : Z := 1.
Definition LoadBasedSchedulerType : Z := 2.

(** [SchedulerImpl]: [Impl] is nil ([None]) until it is assigned. *)
Record SchedulerImpl : Type := mkSchedulerImpl {
  Impl : option Scheduler
}.

(** The package variable [seeded], and the seeds [rand.Seed] was called
    with, the latest first. *)
Record globals : Type := mkGlobals {
  seeded : bool;
  seeds : list Z
}.

Definition program_start : globals :=
  {| seeded := false; seeds := [] |}.

(** [MakeNewScheduler(st, config, client)]; [now] is what
    [time.Now().UTC().UnixNano()] reads. *)
Definition MakeNewScheduler (st : Z) (config : Config) (now : Z) (g : globals)
  : SchedulerImpl * globals :=
  let g' := if Bool.eqb (seeded g) false
            then {| seeded := true; seeds := now :: seeds g |}
            else g in
  let s :=
    if st =? ProbabilisticSchedulerType then
      {| Impl := Some (ProbSched config) |}
    else if st =? RandomSchedulerType then
      {| Impl := Some (RandomSched config) |}
    else if st =? LoadBasedSchedulerType then
      {| Impl := Some (LoadBasedSched config) |}
    else {| Impl := None |} in
  (s, g').

(** A run of the program that makes one scheduler after the other: each
    entry is the type asked for, the configuration and the clock. *)
Fixpoint make_all (requests : list (Z * Config * Z)) (g : globals)
  : list SchedulerImpl * globals :=
  match requests with
  | [] => ([], g)
  | (st, config, now) :: rest =>
      let '(s, g') := MakeNewScheduler st config now g in
      let '(made, g'') := make_all rest g' in
      (s :: made, g'')
  end.

End SchedulerSetup.

(** ** The order of binary64 values *)

Module Float64Order.

(** Every value but NaN. *)
Definition is_num (x : float64) : bool :=
  match x with
  | S754_nan => false
  | _ => true
  end.

Ltac by_compare :=
  repeat match goal with
  | |- context [Z.compare ?x ?y] => destruct (Z.compare_spec x y)
  | |- context [Pos.compare_cont Eq ?x ?y] =>
      change (Pos.compare_cont Eq x y) with (Pos.compare x y);
      destruct (Pos.compare_spec x y)
  end;
  simpl; intros; try discriminate; try reflexivity; try lia.

Ltac unfold_order :=
  unfold f64_lt, f64_le, SFltb, SFleb, SFcompare, is_num.

Ltac by_cases2 a b :=
  unfold_order;
  destruct a as [[]|[]| |[] ? ?], b as [[]|[]| |[] ? ?];
  simpl; try discriminate; try reflexivity; by_compare.

Ltac by_cases3 a b c :=
  unfold_order;
  destruct a as [[]|[]| |[] ? ?], b as [[]|[]| |[] ? ?],
           c as [[]|[]| |[] ? ?];
  simpl; try discriminate; try reflexivity; by_compare.

Lemma lt_irrefl (a : float64) : f64_lt a a = false.
Proof.
  unfold_order. destruct a as [[]|[]| |[] ? ?]; simpl; try reflexivity;
    rewrite Z.compare_refl;
    change (Pos.compare_cont Eq m m) with (Pos.compare m m);
    rewrite Pos.compare_refl; reflexivity.
Qed.

Lemma lt_asym (a b : float64) : f64_lt a b = true -> f64_lt b a = false.
Proof. by_cases2 a b. Qed.

Lemma lt_le (a b : float64) : f64_lt a b = true -> f64_le a b = true.
Proof. by_cases2 a b. Qed.

Lemma le_is_num_l (a b : float64) : f64_le a b = true -> is_num a = true.
Proof. unfold_order. destruct a; simpl; try reflexivity. discriminate. Qed.

Lemma le_is_num_r (a b : float64) : f64_le a b = true -> is_num b = true.
Proof.
  unfold_order. destruct b; simpl; try reflexivity.
  destruct a; discriminate.
Qed.

(** On numbers the order is total. *)
Lemma not_lt_le (a b : float64) :
  is_num a = true -> is_num b = true -> f64_lt a b = false -> f64_le b a = true.
Proof. by_cases2 a b. Qed.

Lemma le_not_lt (a b : float64) : f64_le b a = true -> f64_lt a b = false.
Proof. by_cases2 a b. Qed.

Lemma le_trans (a b c : float64) :
  f64_le a b = true -> f64_le b c = true -> f64_le a c = true.
Proof. by_cases3 a b c. Qed.

Lemma lt_le_trans (a b c : float64) :
  f64_lt a b = true -> f64_le b c = true -> f64_lt a c = true.
Proof. by_cases3 a b c. Qed.

Lemma digits2_pos_bound (m : positive) :
  Zpos m < 2 ^ Zpos (digits2_pos m).
Proof.
  induction m as [p IH|p IH|]; simpl digits2_pos.
  - rewrite Pos2Z.inj_succ, Z.pow_succ_r by lia. lia.
  - rewrite Pos2Z.inj_succ, Z.pow_succ_r by lia. lia.
  - simpl. lia.
Qed.

Lemma MaxFloat64_eq : MaxFloat64 = S754_finite false 9007199254740991 971.
Proof. vm_compute. reflexivity. Qed.

(** The order of two positive finite values, read on their fields. *)
Lemma le_finite_pos (m m' : positive) (e e' : Z) :
  e < e' \/ (e = e' /\ Zpos m <= Zpos m') ->
  f64_le (S754_finite false m e) (S754_finite false m' e') = true.
Proof.
  unfold_order.
  destruct (Z.compare_spec e e') as [He|He|He]; try reflexivity.
  - change (Pos.compare_cont Eq m m') with (Pos.compare m m').
    rewrite Pos2Z.inj_compare.
    destruct (Z.compare_spec (Zpos m) (Zpos m')) as [H1|H1|H1];
      try reflexivity.
    intros [H|[_ H]]; lia.
  - intros [H|[H _]]; lia.
Qed.

(** Every binary64 value other than NaN and +Inf is at most
    [math.MaxFloat64]. *)
Lemma valid_le_MaxFloat64 (v : float64) :
  valid_binary 53 1024 v = true ->
  v <> S754_nan -> v <> S754_infinity false ->
  f64_le v MaxFloat64 = true.
Proof.
  intros Hv Hnan Hinf. rewrite MaxFloat64_eq.
  destruct v as [s|s| |s m e].
  - reflexivity.
  - destruct s; [reflexivity | congruence].
  - congruence.
  - destruct s; [reflexivity|].
    cbn [valid_binary] in Hv. unfold bounded, canonical_mantissa in Hv.
    apply andb_true_iff in Hv. destruct Hv as [Hc He].
    apply Z.eqb_eq in Hc. apply Z.leb_le in He.
    unfold fexp, emin in Hc.
    pose proof (digits2_pos_bound m) as Hd.
    apply le_finite_pos.
    destruct (Z.eq_dec e 971) as [Heq|Hne]; [right|left; lia].
    split; [exact Heq|].
    subst e. assert (Hdig : Zpos (digits2_pos m) = 53) by lia.
    rewrite Hdig in Hd.
    assert (H53 : 2 ^ 53 = 9007199254740992) by (vm_compute; reflexivity).
    rewrite H53 in Hd. clear - Hd. lia.
Qed.
End Float64Order.

(** ** Properties of the scheduler *)

Module SchedulerFacts.
Import Scheduler.

(** *** Load fetch *)

(** What slot [i] holds after the fetch of cluster [i]. *)
Definition slot_after (r : reply) : float64 :=
  match r with
  | Body load_after (Some _) => load_after
  | Body _ None => f64_zero
  | HttpError => f64_zero
  end.

Lemma store_app (pre tl : list float64) (old v : float64) :
  store (pre ++ old :: tl) (List.length pre) v = Ok (pre ++ v :: tl).
Proof.
  induction pre as [|p pre IH]; simpl.
  - reflexivity.
  - rewrite IH. reflexivity.
Qed.

Lemma getClusterLoad_app (net : Network) (pre tl : list float64) (c : ClusterConfig) :
  getClusterLoad net (pre ++ f64_zero :: tl) (List.length pre) (load_request c)
  = Ok (pre ++ slot_after (net (load_request c)) :: tl).
Proof.
  unfold getClusterLoad, slot_after.
  destruct (net (load_request c)) as [|v [e|]]; try reflexivity.
  apply store_app.
Qed.

Lemma fetch_all_app (net : Network) (cs : list ClusterConfig) :
  forall pre : list float64,
    fetch_all net cs (List.length pre) (pre ++ repeat f64_zero (List.length cs))
    = Ok (pre ++ map (fun c => slot_after (net (load_request c))) cs).
Proof.
  induction cs as [|c cs IH]; intros pre; simpl.
  - reflexivity.
  - rewrite getClusterLoad_app. simpl.
    specialize (IH (pre ++ [slot_after (net (load_request c))])).
    rewrite length_app in IH. simpl in IH.
    rewrite Nat.add_1_r in IH.
    rewrite <- !app_assoc in IH. simpl in IH. exact IH.
Qed.

(** [getAllLoadValues] never panics, returns one slot per cluster, and slot
    [i] is determined by the reply of cluster [i] alone. *)
Lemma getAllLoadValues_slots (conf : Config) (net : Network) :
  getAllLoadValues conf net
  = Ok (map (fun c => slot_after (net (load_request c))) (Cluster conf)).
Proof.
  unfold getAllLoadValues. apply (fetch_all_app net (Cluster conf) []).
Qed.

(** One cluster that answers its load request with the JSON number 0.7. *)
Definition one_cluster : Config :=
  mkConfig [mkCluster "a" "http://a:8888" "v1"].

Definition answers (v : float64) : Network := fun _ => Body v None.

(** C1: a cluster whose fetch succeeds and whose body decodes as the float
    0.7 does not get its load stored: the slot keeps the zero value, because
    [getClusterLoad] stores in the branch of a decoding error. *)
Theorem getAllLoadValues_drops_decoded_load :
  getAllLoadValues one_cluster (answers (f64 0.7)) = Ok [f64_zero]
  /\ f64_zero <> f64 0.7.
Proof.
  split.
  - reflexivity.
  - vm_compute. discriminate.
Qed.

(** *** probabilisticSelection *)

Definition in_int64 (z : Z) : Prop := int64_min <= z <= int64_max.

Lemma wrap64_small (z : Z) : in_int64 z -> wrap64 z = z.
Proof.
  unfold in_int64, wrap64, int64_min, int64_max. intros H.
  rewrite Z.mod_small; lia.
Qed.

Lemma wrap64_range (z : Z) : in_int64 (wrap64 z).
Proof.
  unfold in_int64, wrap64, int64_min, int64_max.
  pose proof (Z.mod_pos_bound (z + 2 ^ 63) (2 ^ 64) ltac:(lia)). lia.
Qed.

Lemma int64_of_float64_range (f : float64) : in_int64 (int64_of_float64 f).
Proof.
  unfold int64_of_float64, in_int64.
  destruct (f64_trunc f) as [z|].
  - destruct (int64_min <=? z) eqn:H1; destruct (z <=? int64_max) eqn:H2;
      simpl; try (unfold int64_min, int64_max; lia).
    apply Z.leb_le in H1. apply Z.leb_le in H2. lia.
  - unfold int64_min, int64_max. lia.
Qed.

(** [int64(f)] discards the fraction of a finite [f = (-1)^s * m * 2^e]:
    the magnitude of the result is the integer part of [m * 2^e]. *)
Lemma f64_trunc_finite (s : bool) (m : positive) (e : Z) :
  f64_trunc (S754_finite s m e)
  = Some (cond_Zopp s (if 0 <=? e then Zpos m * 2 ^ e
                       else Zpos m / 2 ^ (- e))).
Proof.
  simpl. f_equal. f_equal.
  destruct (0 <=? e) eqn:He.
  - apply Z.leb_le in He. apply Z.shiftl_mul_pow2. exact He.
  - apply Z.leb_gt in He. apply Z.shiftl_div_pow2. lia.
Qed.

Lemma likelyhood_from_length (loads : list float64) :
  forall prev, List.length (likelyhood_from prev loads) = List.length loads.
Proof.
  induction loads as [|v loads IH]; intros prev; simpl; [reflexivity|].
  rewrite IH. reflexivity.
Qed.

Lemma likelyhood_from_range (loads : list float64) :
  forall prev, Forall in_int64 (likelyhood_from prev loads).
Proof.
  induction loads as [|v loads IH]; intros prev; simpl; constructor.
  - destruct prev; [apply wrap64_range | apply int64_of_float64_range].
  - apply IH.
Qed.

(** Entry [k] of the array is the weight of cluster [k], added (in [int64])
    to entry [k - 1] when there is one. *)
Lemma likelyhood_from_step (loads : list float64) :
  forall (prev : option Z) (k : nat) (v : float64),
    nth_error loads k = Some v ->
    nth_error (likelyhood_from prev loads) k
    = Some match k with
           | O => match prev with
                  | Some p => add64 p (weight v)
                  | None => weight v
                  end
           | S j => add64 (nth j (likelyhood_from prev loads) 0) (weight v)
           end.
Proof.
  induction loads as [|w loads IH]; intros prev k v Hk.
  - destruct k; discriminate.
  - destruct k as [|k]; simpl in *.
    + inversion Hk. reflexivity.
    + rewrite (IH _ k v Hk). destruct k as [|j]; reflexivity.
Qed.

(** The second loop returns the first index whose entry exceeds the draw. *)
Lemma first_above_spec (l : list Z) (selection : Z) :
  forall k0 : Z,
    (first_above k0 l selection = -1
     /\ Forall (fun v => v <= selection) l)
    \/ (exists k : nat,
          first_above k0 l selection = k0 + Z.of_nat k
          /\ (k < List.length l)%nat
          /\ selection < nth k l 0
          /\ Forall (fun v => v <= selection) (firstn k l)).
Proof.
  induction l as [|v l IH]; intros k0; simpl.
  - left. split; [reflexivity | constructor].
  - destruct (v >? selection) eqn:Hv.
    + right. exists O. simpl. rewrite Z.add_0_r.
      apply Z.gtb_lt in Hv. repeat split; try lia. constructor.
    + assert (Hle : v <= selection).
      { destruct (Z.gtb_spec v selection); [discriminate | lia]. }
      destruct (IH (k0 + 1)) as [[Hr Hall]|[k [Hr [Hk [Hn Hall]]]]].
      * left. split; [exact Hr | constructor; assumption].
      * right. exists (S k). simpl.
        repeat split; try lia; try assumption.
        constructor; assumption.
Qed.

Lemma last_nth {A : Type} (l : list A) (d : A) :
  last l d = nth (List.length l - 1) l d.
Proof.
  induction l as [|a l IH]; [reflexivity|].
  destruct l as [|b l]; [reflexivity|].
  change (last (a :: b :: l) d) with (last (b :: l) d).
  rewrite IH. simpl. rewrite Nat.sub_0_r. reflexivity.
Qed.

(** What the selection is, for the draw [d] that [rand.Int63n] returned. *)
Definition selects (loads : list float64) (d : Z) (k : nat) : Prop :=
  (k < List.length loads)%nat
  /\ d < nth k (likelyhood loads) 0
  /\ Forall (fun v => v <= d) (firstn k (likelyhood loads)).

Lemma probabilisticSelection_selects (raw : Z) (loads : list float64) (d : Z) :
  0 < last (likelyhood loads) 0 ->
  Int63n raw (sub64 (last (likelyhood loads) 0) 1) = Ok d ->
  exists k : nat,
    probabilisticSelection raw loads = Ok (Z.of_nat k) /\ selects loads d k.
Proof.
  intros Htot Hdraw.
  assert (Hlen : List.length (likelyhood loads) = List.length loads)
    by apply likelyhood_from_length.
  assert (Hne : loads <> []).
  { intros H. rewrite H in Htot. simpl in Htot. lia. }
  unfold probabilisticSelection.
  destruct (Z.of_nat (List.length loads) <=? 0) eqn:H0.
  { apply Z.leb_le in H0. destruct loads; [congruence | simpl in H0; lia]. }
  cbv zeta.
  destruct (last (likelyhood loads) 0 <=? 0) eqn:H1.
  { apply Z.leb_le in H1. lia. }
  rewrite Hdraw. simpl.
  (* the draw is below the last entry *)
  assert (Hrange : in_int64 (last (likelyhood loads) 0)).
  { rewrite last_nth.
    pose proof (likelyhood_from_range loads None) as Hall.
    rewrite Forall_forall in Hall. apply Hall. apply nth_In.
    fold (likelyhood loads). rewrite Hlen.
    destruct loads; [congruence | simpl; lia]. }
  assert (Hd : d < last (likelyhood loads) 0).
  { unfold Int63n, sub64 in Hdraw.
    rewrite wrap64_small in Hdraw
      by (unfold in_int64, int64_min, int64_max in *; lia).
    destruct (last (likelyhood loads) 0 - 1 <=? 0) eqn:H2; [discriminate|].
    apply Z.leb_gt in H2. inversion Hdraw.
    pose proof (Z.mod_pos_bound raw (last (likelyhood loads) 0 - 1) H2). lia. }
  destruct (first_above_spec (likelyhood loads) d 0)
    as [[_ Hall]|[k [Hr [Hk [Hn Hall]]]]].
  - exfalso. rewrite Forall_forall in Hall.
    assert (Hin : In (last (likelyhood loads) 0) (likelyhood loads)).
    { rewrite last_nth. apply nth_In. rewrite Hlen.
      destruct loads; [congruence | simpl; lia]. }
    specialize (Hall _ Hin). lia.
  - exists k. rewrite Hr. split; [reflexivity|].
    unfold selects. rewrite <- Hlen. auto.
Qed.

(** The weight the specification words: [round((1 - load) * 10000)], the
    nearest integer (halves away from zero). *)
Definition f64_round (f : float64) : option Z :=
  match f with
  | S754_zero _ => Some 0
  | S754_finite s m e =>
      Some (cond_Zopp s (if 0 <=? e then Zpos m * 2 ^ e
                         else (2 * Zpos m + 2 ^ (- e)) / (2 * 2 ^ (- e))))
  | S754_infinity _ | S754_nan => None
  end.

Definition rounded_weight (v : float64) : option Z :=
  f64_round (f64_mul (f64_sub (f64 1.0) v) (f64 10000)).

(** The load 8191/16384, for which [(1 - load) * 10000] is exactly
    5000.6103515625. *)
Definition load_8191_16384 : float64 := f64 0.49993896484375.

(** C2, as stated, fails: the incremental weight is not the rounded product.
    For the load 8191/16384 the product is 5000.6103515625, the code's weight
    is 5000 and the rounded weight is 5001. *)
Lemma weight_is_not_rounded :
  f64_mul (f64_sub (f64 1.0) load_8191_16384) (f64 10000)
    = S754_finite false 5498229227520000 (-40)
  /\ likelyhood [load_8191_16384] = [5000]
  /\ rounded_weight load_8191_16384 = Some 5001
  /\ Some (weight load_8191_16384) <> rounded_weight load_8191_16384.
Proof.
  repeat split; try (vm_compute; reflexivity).
  vm_compute. discriminate.
Qed.

(** The magnitude [m * 2^e] with its fraction discarded, under the sign. *)
Definition integer_part (s : bool) (m : positive) (e : Z) : Z :=
  cond_Zopp s (if 0 <=? e then Zpos m * 2 ^ e else Zpos m / 2 ^ (- e)).

(** [int64(f)] of a finite [f] whose integer part fits is that integer
    part: the conversion truncates towards zero. *)
Lemma int64_of_float64_truncates (s : bool) (m : positive) (e : Z) :
  int64_min <= integer_part s m e <= int64_max ->
  int64_of_float64 (S754_finite s m e) = integer_part s m e.
Proof.
  intros [Hlo Hhi]. unfold int64_of_float64.
  rewrite f64_trunc_finite. fold (integer_part s m e).
  apply Z.leb_le in Hlo. apply Z.leb_le in Hhi.
  rewrite Hlo, Hhi. reflexivity.
Qed.

(** C2, amended: for every load vector, entry [k] of the cumulative array
    is entry [k - 1] plus [int64((1 - load_k) * 10000)], and that conversion
    discards the fraction of the product (it truncates towards zero); and
    when the last entry is positive and [rand.Int63n] returned the draw
    [d], the function returns the first index whose cumulative weight
    strictly exceeds [d]. *)
Theorem probabilisticSelection_truncated_weights
    (raw : Z) (loads : list float64) :
  (forall (k : nat) (v : float64),
     nth_error loads k = Some v ->
     nth_error (likelyhood loads) k
     = Some match k with
            | O =>
                int64_of_float64 (f64_mul (f64_sub (f64 1.0) v) (f64 10000))
            | S j =>
                add64 (nth j (likelyhood loads) 0)
                      (int64_of_float64
                         (f64_mul (f64_sub (f64 1.0) v) (f64 10000)))
            end)
  /\ (forall (s : bool) (m : positive) (e : Z),
        int64_min <= integer_part s m e <= int64_max ->
        int64_of_float64 (S754_finite s m e) = integer_part s m e)
  /\ (forall d : Z,
        0 < last (likelyhood loads) 0 ->
        Int63n raw (sub64 (last (likelyhood loads) 0) 1) = Ok d ->
        exists k : nat,
          probabilisticSelection raw loads = Ok (Z.of_nat k)
          /\ selects loads d k).
Proof.
  split; [|split].
  - intros k v Hk. unfold likelyhood.
    rewrite (likelyhood_from_step loads None k v Hk). reflexivity.
  - exact int64_of_float64_truncates.
  - intros d Htot Hdraw.
    exact (probabilisticSelection_selects raw loads d Htot Hdraw).
Qed.

(** The all-ones vector, whose total weight is 0, has the array 0, 0, 0;
    the product for the load 8191/16384 is truncated to 5000; and for three
    idle clusters and the raw random value 15000 the cumulative weights are
    10000, 20000, 30000, the draw is 15000 and index 1 wins. *)
Lemma probabilisticSelection_truncated_weights_witness :
  nth_error (likelyhood [f64 1; f64 1; f64 1]) 2
  = Some (add64 (nth 1 (likelyhood [f64 1; f64 1; f64 1]) 0)
                (int64_of_float64
                   (f64_mul (f64_sub (f64 1.0) (f64 1)) (f64 10000))))
  /\ int64_of_float64 (S754_finite false 5498229227520000 (-40))
     = integer_part false 5498229227520000 (-40)
  /\ exists k : nat,
       probabilisticSelection 15000 [f64 0; f64 0; f64 0] = Ok (Z.of_nat k)
       /\ selects [f64 0; f64 0; f64 0] 15000 k.
Proof.
  split; [|split].
  - apply (proj1 (probabilisticSelection_truncated_weights
                    0 [f64 1; f64 1; f64 1]) 2%nat (f64 1)).
    reflexivity.
  - apply (proj1 (proj2 (probabilisticSelection_truncated_weights 0 []))).
    vm_compute. split; discriminate.
  - apply (proj2 (proj2 (probabilisticSelection_truncated_weights
                           15000 [f64 0; f64 0; f64 0])) 15000).
    + vm_compute. reflexivity.
    + vm_compute. reflexivity.
Defined.

(** When the last cumulative weight is not positive there is no selection. *)
Lemma probabilisticSelection_no_weight (raw : Z) (loads : list float64) :
  last (likelyhood loads) 0 <= 0 ->
  probabilisticSelection raw loads = Ok (-1).
Proof.
  intros H. unfold probabilisticSelection.
  destruct (Z.of_nat (List.length loads) <=? 0); [reflexivity|].
  cbv zeta. apply Z.leb_le in H. rewrite H. reflexivity.
Qed.

(** Then [ProbSched] falls back to the default cluster. *)
Lemma ProbSched_default (conf : Config) (net : Network) (raw : Z)
    (loads : list float64) :
  getAllLoadValues conf net = Ok loads ->
  last (likelyhood loads) 0 <= 0 ->
  ProbSched_SelectCluster conf net raw = Ok "default"%string.
Proof.
  intros Hl H. unfold ProbSched_SelectCluster. rewrite Hl. simpl.
  rewrite probabilisticSelection_no_weight by exact H. reflexivity.
Qed.

(** One cluster with load 0.9998: [int64((1 - 0.9998) * 10000)] is 1. *)
Definition nearly_full : list float64 := [f64 0.9998].

(** Whenever the total weight is exactly 1 the selection panics. *)
Lemma probabilisticSelection_total_1 (raw : Z) (loads : list float64) :
  last (likelyhood loads) 0 = 1 ->
  probabilisticSelection raw loads = Panic "invalid argument to Int63n".
Proof.
  intros H. unfold probabilisticSelection.
  destruct (Z.of_nat (List.length loads) <=? 0) eqn:H0.
  - apply Z.leb_le in H0. destruct loads; [discriminate | simpl in H0; lia].
  - cbv zeta. rewrite H. reflexivity.
Qed.

(** C3: the load 0.9998 lies in [0,1] and its weight, the total weight, is
    1, a positive total; yet the selection panics on it: [rand.Int63n] is
    called with [1 - 1 = 0], whatever the generator holds.  The all-ones
    vector, by contrast, gives no selection. *)
Theorem probabilisticSelection_panics_on_total_weight_1 :
  f64_le (f64 0) (f64 0.9998) = true
  /\ f64_le (f64 0.9998) (f64 1) = true
  /\ likelyhood nearly_full = [1]
  /\ (forall raw : Z,
        probabilisticSelection raw nearly_full
        = Panic "invalid argument to Int63n")
  /\ (forall raw : Z,
        probabilisticSelection raw [f64 1; f64 1; f64 1] = Ok (-1)).
Proof.
  split; [vm_compute; reflexivity|].
  split; [vm_compute; reflexivity|].
  split; [vm_compute; reflexivity|]. split; intros raw.
  - apply probabilisticSelection_total_1. vm_compute. reflexivity.
  - apply probabilisticSelection_no_weight. vm_compute. discriminate.
Qed.

(** *** minLoad *)

Import Float64Order.

(** [m], found at index [i], is a minimum of [load], and every entry before
    index [i] is strictly larger. *)
Definition first_minimum (load : list float64) (i : nat) : Prop :=
  exists m : float64,
    nth_error load i = Some m
    /\ Forall (fun v => f64_le m v = true) load
    /\ Forall (fun v => f64_lt m v = true) (firstn i load).

Lemma Forall_snoc {A : Type} (P : A -> Prop) (l : list A) (x : A) :
  Forall P l -> P x -> Forall P (l ++ [x]).
Proof.
  intros Hl Hx. apply Forall_app. split; [exact Hl|].
  constructor; [exact Hx | constructor].
Qed.

(** The loop once [min] is an entry already seen: [pre] is the part of the
    slice behind the loop, [index] the place of [min] in it. *)
Lemma minLoad_loop_found (rest : list float64) :
  forall (pre : list float64) (min : float64) (index : nat),
    Forall (fun v => is_num v = true) (pre ++ rest) ->
    nth_error pre index = Some min ->
    Forall (fun v => f64_le min v = true) pre ->
    Forall (fun v => f64_lt min v = true) (firstn index pre) ->
    first_minimum (pre ++ rest)
                  (minLoad_loop rest (List.length pre) min index).
Proof.
  induction rest as [|v rest IH]; intros pre min index Hnum Hnth Hmin Hfirst.
  - simpl. rewrite app_nil_r. exists min. auto.
  - assert (Hidx : (index < List.length pre)%nat).
    { apply nth_error_Some. rewrite Hnth. discriminate. }
    assert (Hv : is_num v = true).
    { apply Forall_app in Hnum. destruct Hnum as [_ Hr].
      inversion Hr; assumption. }
    assert (Hm : is_num min = true).
    { apply Forall_app in Hnum. destruct Hnum as [Hp _].
      rewrite Forall_forall in Hp. apply Hp.
      eapply nth_error_In. exact Hnth. }
    assert (Hlen : List.length (pre ++ [v]) = S (List.length pre)).
    { rewrite length_app. simpl. lia. }
    replace (pre ++ v :: rest) with ((pre ++ [v]) ++ rest) in *
      by (rewrite <- app_assoc; reflexivity).
    simpl. destruct (f64_lt v min) eqn:Hlt.
    + rewrite <- Hlen. apply IH.
      * exact Hnum.
      * rewrite nth_error_app2 by lia. rewrite Nat.sub_diag. reflexivity.
      * apply Forall_snoc.
        -- eapply Forall_impl; [|exact Hmin]. simpl. intros p Hp.
           apply lt_le. eapply lt_le_trans; eassumption.
        -- apply not_lt_le; auto using lt_irrefl.
      * rewrite firstn_app, Nat.sub_diag, firstn_all. simpl.
        rewrite app_nil_r.
        eapply Forall_impl; [|exact Hmin]. simpl. intros p Hp.
        eapply lt_le_trans; eassumption.
    + rewrite <- Hlen. apply IH.
      * exact Hnum.
      * rewrite nth_error_app1 by lia. exact Hnth.
      * apply Forall_snoc; [exact Hmin|]. apply not_lt_le; assumption.
      * rewrite firstn_app.
        replace (index - List.length pre)%nat with O by lia.
        simpl. rewrite app_nil_r. exact Hfirst.
Qed.

(** The loop while no entry was below the initial bound [mx]. *)
Lemma minLoad_loop_start (mx : float64) (rest : list float64) :
  forall pre : list float64,
    pre ++ rest <> [] ->
    Forall (fun v => f64_le v mx = true) (pre ++ rest) ->
    Forall (fun v => f64_lt v mx = false) pre ->
    first_minimum (pre ++ rest) (minLoad_loop rest (List.length pre) mx O).
Proof.
  induction rest as [|v rest IH]; intros pre Hne Hle Hpre.
  - simpl. rewrite app_nil_r in *.
    destruct pre as [|v0 pre]; [congruence|].
    exists v0. split; [reflexivity|]. split; [|constructor].
    assert (H0 : f64_le v0 mx = true) by (inversion Hle; assumption).
    rewrite Forall_forall in *. intros p Hp.
    apply le_trans with mx; [exact H0|].
    apply not_lt_le.
    + eapply le_is_num_l. apply Hle. exact Hp.
    + eapply le_is_num_r. exact H0.
    + apply Hpre. exact Hp.
  - assert (Hnum : Forall (fun p => is_num p = true) (pre ++ v :: rest)).
    { eapply Forall_impl; [|exact Hle]. simpl. intros p Hp.
      eapply le_is_num_l. exact Hp. }
    assert (Hv : f64_le v mx = true).
    { apply Forall_app in Hle. destruct Hle as [_ Hr].
      inversion Hr; assumption. }
    assert (Hlen : List.length (pre ++ [v]) = S (List.length pre)).
    { rewrite length_app. simpl. lia. }
    replace (pre ++ v :: rest) with ((pre ++ [v]) ++ rest) in *
      by (rewrite <- app_assoc; reflexivity).
    simpl. destruct (f64_lt v mx) eqn:Hlt.
    + assert (Hbelow : Forall (fun p => f64_lt v p = true) pre).
      { rewrite Forall_forall in *. intros p Hp.
        eapply lt_le_trans; [exact Hlt|].
        apply not_lt_le.
        - apply Hnum. apply in_or_app. left. apply in_or_app. left. exact Hp.
        - eapply le_is_num_r. exact Hv.
        - apply Hpre. exact Hp. }
      rewrite <- Hlen. apply minLoad_loop_found.
      * exact Hnum.
      * rewrite nth_error_app2 by lia. rewrite Nat.sub_diag. reflexivity.
      * apply Forall_snoc.
        -- eapply Forall_impl; [|exact Hbelow]. simpl. intros p Hp.
           apply lt_le. exact Hp.
        -- apply not_lt_le; auto using lt_irrefl; eapply le_is_num_l; exact Hv.
      * rewrite firstn_app, Nat.sub_diag, firstn_all. simpl.
        rewrite app_nil_r. exact Hbelow.
    + rewrite <- Hlen. apply IH.
      * intros H. apply app_eq_nil in H. destruct H as [H _].
        apply app_eq_nil in H. destruct H as [_ H]. discriminate.
      * exact Hle.
      * apply Forall_snoc; assumption.
Qed.

(** [minLoad] returns the first index of a minimum of the slice. *)
Lemma minLoad_first_minimum (load : list float64) :
  load <> [] ->
  Forall (fun v => f64_le v MaxFloat64 = true) load ->
  first_minimum load (minLoad load).
Proof.
  intros Hne Hle. unfold minLoad.
  apply (minLoad_loop_start MaxFloat64 load []); auto.
Qed.

(** With at least one cluster, the load based scheduler answers the name of
    the cluster at index [minLoad] of the fetched loads. *)
Lemma LoadBasedSched_selects_minLoad (conf : Config) (net : Network) :
  Cluster conf <> [] ->
  exists (load : list float64) (c : ClusterConfig),
    getAllLoadValues conf net = Ok load
    /\ nth_error (Cluster conf) (minLoad load) = Some c
    /\ LoadBasedSched_SelectCluster conf net = Ok (Name c).
Proof.
  intros Hne. unfold LoadBasedSched_SelectCluster, cluster_name.
  rewrite getAllLoadValues_slots. simpl.
  set (load := map (fun c => slot_after (net (load_request c))) (Cluster conf)).
  destruct (nth_error (Cluster conf) (minLoad load)) as [c|] eqn:Hc.
  - exists load, c. auto.
  - exfalso. apply nth_error_None in Hc.
    assert (Hlen : List.length load = List.length (Cluster conf))
      by apply length_map.
    assert (Hload : load <> []).
    { intros H. rewrite H in Hlen. destruct (Cluster conf); [congruence|discriminate]. }
    unfold minLoad in Hc.
    assert (Hb : forall rest k mn i, (i < k + List.length rest)%nat ->
                 (minLoad_loop rest k mn i < k + List.length rest)%nat).
    { induction rest as [|v rest IH]; intros k mn i Hi; simpl in *.
      - lia.
      - destruct (f64_lt v mn).
        + replace (k + S (List.length rest))%nat
            with (S k + List.length rest)%nat by lia. apply IH. lia.
        + replace (k + S (List.length rest))%nat
            with (S k + List.length rest)%nat by lia. apply IH. lia. }
    specialize (Hb load O MaxFloat64 O).
    destruct load; [congruence|]. simpl in Hb, Hlen, Hc. lia.
Qed.

(** C4, amended: on a non-empty slice whose entries are at most
    [math.MaxFloat64] (every float64 but NaN and +Inf), [minLoad] returns
    the smallest index that holds the minimum (every earlier entry is
    strictly larger); the load based scheduler returns the name of the
    cluster at that index; over the loads 0.9, 0.1, 0.5 the index is 1. *)
Theorem minLoad_selects_first_minimum :
  (forall load : list float64,
     load <> [] ->
     Forall (fun v => f64_le v MaxFloat64 = true) load ->
     first_minimum load (minLoad load))
  /\ (forall (conf : Config) (net : Network),
        Cluster conf <> [] ->
        exists (load : list float64) (c : ClusterConfig),
          getAllLoadValues conf net = Ok load
          /\ nth_error (Cluster conf) (minLoad load) = Some c
          /\ LoadBasedSched_SelectCluster conf net = Ok (Name c))
  /\ minLoad [f64 0.9; f64 0.1; f64 0.5] = 1%nat.
Proof.
  split; [exact minLoad_first_minimum|].
  split; [exact LoadBasedSched_selects_minLoad|].
  vm_compute. reflexivity.
Qed.

(** The loads 0.9, 0.1, 0.5 are finite, and 0.1 at index 1 is their first
    minimum. *)
Lemma minLoad_selects_first_minimum_witness :
  first_minimum [f64 0.9; f64 0.1; f64 0.5]
                (minLoad [f64 0.9; f64 0.1; f64 0.5]).
Proof.
  apply (proj1 minLoad_selects_first_minimum).
  - discriminate.
  - repeat constructor; vm_compute; reflexivity.
Defined.

(** C4, as stated, fails: for the slice +Inf, MaxFloat64 the loop never
    finds an entry below its initial [min], which is MaxFloat64, and returns
    index 0, where +Inf stands, while the minimum stands at index 1. *)
Lemma minLoad_keeps_index_0_after_infinity :
  minLoad [S754_infinity false; MaxFloat64] = 0%nat
  /\ f64_lt MaxFloat64 (S754_infinity false) = true
  /\ ~ first_minimum [S754_infinity false; MaxFloat64]
                     (minLoad [S754_infinity false; MaxFloat64]).
Proof.
  assert (H0 : minLoad [S754_infinity false; MaxFloat64] = 0%nat)
    by (vm_compute; reflexivity).
  split; [exact H0|]. split; [vm_compute; reflexivity|].
  rewrite H0. intros [m [Hm [Hall _]]].
  simpl in Hm. inversion Hm. subst m.
  inversion Hall as [|x l _ Htl]. subst.
  inversion Htl as [|y l' Hle _]. subst.
  vm_compute in Hle. discriminate.
Qed.

End SchedulerFacts.

(** ** Properties of the inception proxy *)

Module InceptionFacts.
Import Inception.

Local Open Scope string_scope.

(** The requests among the events of a call. *)
Definition is_request (e : event) : bool :=
  match e with
  | Log _ => false
  | _ => true
  end.

Definition requests_of (trace : list event) : list event :=
  filter is_request trace.

(** A schedule of [n] goroutines names each of them once. *)
Definition schedule_of (n : nat) (order : list nat) : Prop :=
  Permutation order (seq 0 n).

Lemma fst_emit {A : Type} (e : event) (k : unit -> Proc A) :
  fst (pbind (emit e) k) = fst (k tt).
Proof. unfold pbind, emit. destruct (k tt). reflexivity. Qed.

Lemma pbind_ok {A B : Type} (a : A) (tr : list event) (k : A -> Proc B) :
  pbind (Ok a, tr) k = (fst (k a), (tr ++ snd (k a))%list).
Proof. unfold pbind. destruct (k a). reflexivity. Qed.

Lemma scheduled_shift {A : Type} (pre l : list A) :
  scheduled (seq (List.length pre) (List.length l)) (pre ++ l) = l.
Proof.
  revert pre. induction l as [|a l IH]; intros pre; [reflexivity|].
  unfold scheduled in *. simpl.
  rewrite nth_error_app2 by lia. rewrite Nat.sub_diag. simpl. f_equal.
  specialize (IH (pre ++ [a])%list).
  rewrite length_app in IH. simpl in IH. rewrite Nat.add_1_r in IH.
  rewrite <- app_assoc in IH. exact IH.
Qed.

(** Under a schedule every goroutine runs once. *)
Lemma scheduled_permutation {A : Type} (order : list nat) (l : list A) :
  schedule_of (List.length l) order -> Permutation (scheduled order l) l.
Proof.
  intros H. unfold scheduled.
  rewrite (Permutation_flat_map _ H).
  pose proof (scheduled_shift [] l) as Hid. simpl in Hid.
  unfold scheduled in Hid. rewrite Hid. apply Permutation_refl.
Qed.

Section Facts.

Variables JobInfo Machine Queue JobTemplate : Type.
Variable NewRequest : string -> string -> string -> Request JobInfo Machine Queue.
Variable GetClusterAddress : string -> fallible (string * string).

Local Abbreviation Inception := (Inception JobInfo Machine Queue).

(** *** The fan-out of GetJobInfosByFilter *)

(** The peers that get a goroutine: the clusters that are not taken for the
    proxy itself. *)
Definition peers (i : Inception) (cs : list ClusterConfig) : list string :=
  flat_map (fun c => if own_address i c then []
                     else [Address c ++ "/v1"]) cs.

Definition skip_logs (i : Inception) (cs : list ClusterConfig) : list event :=
  flat_map (fun c => if own_address i c then [Log "Skipping own address "]
                     else []) cs.

(** The job infos a peer contributes: those of its answer, none when the
    answer is nil. *)
Definition jobs_of (i : Inception) (address : string) : list JobInfo :=
  match GetJobs (request i) address "all" "" with
  | Some l => l
  | None => []
  end.

Definition goroutine_events (address : string) : list event :=
  [Log "Requesting from: "; ReqJobs address "all" "";
   Log "Got following jobinfos: "].

Lemma fan_out_peers (i : Inception) (cs : list ClusterConfig) :
  fan_out i cs = (Ok (peers i cs), skip_logs i cs).
Proof.
  induction cs as [|c cs IH]; simpl; [reflexivity|].
  unfold peers, skip_logs in *. simpl.
  destruct (own_address i c); simpl.
  - rewrite IH. reflexivity.
  - rewrite IH. simpl. rewrite app_nil_r. reflexivity.
Qed.

Lemma run_goroutines_all (i : Inception) (addresses : list string) :
  forall ji : list JobInfo,
    run_goroutines i ji addresses
    = (Ok (ji ++ flat_map (jobs_of i) addresses)%list,
       flat_map goroutine_events addresses).
Proof.
  induction addresses as [|a rest IH]; intros ji; simpl.
  - rewrite app_nil_r. reflexivity.
  - unfold requestJobInfos, jobs_of at 1. simpl.
    destruct (GetJobs (request i) a "all" "") as [l|]; simpl;
      rewrite IH; simpl.
    + rewrite <- app_assoc. reflexivity.
    + reflexivity.
Qed.

(** What [GetJobInfosByFilter] returns and leaves behind. *)
Lemma GetJobInfosByFilter_run (i : Inception) (filtered : bool)
    (filter : JobInfo) (order : list nat) :
  GetJobInfosByFilter i filtered filter order
  = (Ok (flat_map (jobs_of i) (scheduled order (peers i (Cluster (config i))))),
     (skip_logs i (Cluster (config i))
      ++ flat_map goroutine_events
           (scheduled order (peers i (Cluster (config i)))))%list).
Proof.
  unfold GetJobInfosByFilter. rewrite fan_out_peers, pbind_ok.
  rewrite run_goroutines_all. reflexivity.
Qed.

Lemma requests_of_goroutines (addresses : list string) :
  requests_of (flat_map goroutine_events addresses)
  = map (fun a => ReqJobs a "all" "") addresses.
Proof.
  induction addresses as [|a rest IH]; simpl; [reflexivity|].
  unfold requests_of in *. rewrite IH. reflexivity.
Qed.

Lemma requests_of_skip_logs (i : Inception) (cs : list ClusterConfig) :
  requests_of (skip_logs i cs) = [].
Proof.
  induction cs as [|c cs IH]; simpl; [reflexivity|].
  unfold requests_of, skip_logs in *. simpl.
  destruct (own_address i c); simpl; exact IH.
Qed.

Lemma GetJobInfosByFilter_requests (i : Inception) (filtered : bool)
    (filter : JobInfo) (order : list nat) :
  requests_of (snd (GetJobInfosByFilter i filtered filter order))
  = map (fun a => ReqJobs a "all" "")
        (scheduled order (peers i (Cluster (config i)))).
Proof.
  rewrite GetJobInfosByFilter_run. simpl.
  unfold requests_of. rewrite filter_app.
  fold (requests_of (skip_logs i (Cluster (config i)))).
  rewrite requests_of_skip_logs. simpl.
  apply requests_of_goroutines.
Qed.

(** *** The sequential reads *)

(** The address [GetClusterAddress] gives for a cluster. *)
Definition resolves (c : ClusterConfig) : Prop :=
  exists a : string * string, GetClusterAddress (Name c) = Success a.

Definition peer_address (c : ClusterConfig) : string :=
  match GetClusterAddress (Name c) with
  | Success (address, _) => address
  | Failure _ => ""
  end.

(** What a cluster contributes to each read: nothing when it is taken for
    the proxy itself or when its request fails. *)
Definition machines_of (i : Inception) (c : ClusterConfig) : list Machine :=
  if own_address i c then []
  else match GetMachines (request i) (peer_address c) "all" with
       | Success ms => ms
       | Failure _ => []
       end.

Definition queues_of (i : Inception) (c : ClusterConfig) : list Queue :=
  if own_address i c then []
  else match GetQueues (request i) (peer_address c) "all" with
       | Success qs => qs
       | Failure _ => []
       end.

Definition categories_of (i : Inception) (c : ClusterConfig) : list string :=
  if own_address i c then []
  else GetJobCategories (request i) (peer_address c) "ubercluster" "all".

Lemma GetAllMachines_loop_ok (i : Inception) (cs : list ClusterConfig) :
  Forall resolves cs ->
  forall allmachines : list Machine,
    fst (GetAllMachines_loop GetClusterAddress i cs allmachines)
    = Ok ((allmachines ++ flat_map (machines_of i) cs)%list, None).
Proof.
  induction 1 as [|c cs [[a n] Hc] Hcs IH]; intros acc;
    cbn [GetAllMachines_loop flat_map].
  - rewrite app_nil_r. reflexivity.
  - rewrite fst_emit. unfold machines_of at 1, peer_address.
    destruct (own_address i c).
    + rewrite IH. reflexivity.
    + rewrite Hc, fst_emit.
      destruct (GetMachines (request i) a "all") as [ms|err];
        rewrite fst_emit, IH.
      * rewrite <- app_assoc. reflexivity.
      * reflexivity.
Qed.

Lemma GetAllQueues_loop_ok (i : Inception) (cs : list ClusterConfig) :
  Forall resolves cs ->
  forall allqueues : list Queue,
    fst (GetAllQueues_loop GetClusterAddress i cs allqueues)
    = Ok ((allqueues ++ flat_map (queues_of i) cs)%list, None).
Proof.
  induction 1 as [|c cs [[a n] Hc] Hcs IH]; intros acc;
    cbn [GetAllQueues_loop flat_map].
  - rewrite app_nil_r. reflexivity.
  - rewrite fst_emit. unfold queues_of at 1, peer_address.
    destruct (own_address i c).
    + rewrite IH. reflexivity.
    + rewrite Hc, fst_emit.
      destruct (GetQueues (request i) a "all") as [qs|err];
        rewrite fst_emit, IH.
      * rewrite <- app_assoc. reflexivity.
      * reflexivity.
Qed.

Lemma GetAllCategories_loop_ok (i : Inception) (cs : list ClusterConfig) :
  Forall resolves cs ->
  forall cat : list string,
    fst (GetAllCategories_loop GetClusterAddress i cs cat)
    = Ok ((cat ++ flat_map (categories_of i) cs)%list, None).
Proof.
  induction 1 as [|c cs [[a n] Hc] Hcs IH]; intros acc;
    cbn [GetAllCategories_loop flat_map].
  - rewrite app_nil_r. reflexivity.
  - rewrite fst_emit. unfold categories_of at 1, peer_address.
    destruct (own_address i c).
    + rewrite fst_emit, IH. reflexivity.
    + rewrite Hc, fst_emit, IH.
      rewrite <- app_assoc. reflexivity.
Qed.

(** C5: every aggregate read returns without a panic and without an error,
    whatever the peers answer, and its result is the concatenation of what
    the peers with a successful fetch answered: in the order of the
    configuration for machines, queues and categories, in the order in which
    the goroutines append for the job infos (a permutation of the former).
    The name of every configured cluster is taken to resolve to an address. *)
Theorem aggregate_reads_skip_failed_peers
    (i : Inception) (filtered : bool) (filter : JobInfo) (order : list nat)
    (machines queues : list string) :
  Forall resolves (Cluster (config i)) ->
  schedule_of (List.length (peers i (Cluster (config i)))) order ->
  (fst (GetJobInfosByFilter i filtered filter order)
   = Ok (flat_map (jobs_of i) (scheduled order (peers i (Cluster (config i)))))
   /\ Permutation
        (flat_map (jobs_of i) (scheduled order (peers i (Cluster (config i)))))
        (flat_map (jobs_of i) (peers i (Cluster (config i)))))
  /\ fst (GetAllMachines GetClusterAddress i machines)
     = Ok (flat_map (machines_of i) (Cluster (config i)), None)
  /\ fst (GetAllQueues GetClusterAddress i queues)
     = Ok (flat_map (queues_of i) (Cluster (config i)), None)
  /\ fst (GetAllCategories GetClusterAddress i)
     = Ok (flat_map (categories_of i) (Cluster (config i)), None).
Proof.
  intros Hres Hsched. repeat split.
  - rewrite GetJobInfosByFilter_run. reflexivity.
  - apply Permutation_flat_map. apply scheduled_permutation. exact Hsched.
  - unfold GetAllMachines. rewrite GetAllMachines_loop_ok by exact Hres.
    reflexivity.
  - unfold GetAllQueues. rewrite GetAllQueues_loop_ok by exact Hres.
    reflexivity.
  - unfold GetAllCategories. rewrite GetAllCategories_loop_ok by exact Hres.
    reflexivity.
Qed.

(** C10: [GetJobInfosByFilter] does not read its arguments: two calls with
    different arguments, under the same schedule, return the same and leave
    the same events; and the requests are one [GetJobs] with the state "all"
    and no user for every peer, whatever filter was given. *)
Theorem GetJobInfosByFilter_ignores_filter
    (i : Inception) (filtered1 filtered2 : bool) (filter1 filter2 : JobInfo)
    (order : list nat) :
  schedule_of (List.length (peers i (Cluster (config i)))) order ->
  GetJobInfosByFilter i filtered1 filter1 order
  = GetJobInfosByFilter i filtered2 filter2 order
  /\ requests_of (snd (GetJobInfosByFilter i filtered1 filter1 order))
     = map (fun a => ReqJobs a "all" "")
           (scheduled order (peers i (Cluster (config i))))
  /\ Permutation (scheduled order (peers i (Cluster (config i))))
                 (peers i (Cluster (config i))).
Proof.
  intros Hsched. split; [|split].
  - rewrite !GetJobInfosByFilter_run. reflexivity.
  - apply GetJobInfosByFilter_requests.
  - apply scheduled_permutation. exact Hsched.
Qed.

(** *** The self-reference guard *)

Lemma append_slash_not_empty (a : string) : String.eqb (a ++ "/") "" = false.
Proof. destruct a; reflexivity. Qed.

(** The inception that [NewInception] makes takes no cluster for itself. *)
Lemma NewInception_no_own_address (certFile keyFile otp : string)
    (conf : Config) (c : ClusterConfig) :
  own_address (NewInception NewRequest certFile keyFile otp conf) c = false.
Proof. unfold own_address. simpl. apply append_slash_not_empty. Qed.

Lemma NewInception_peers (certFile keyFile otp : string) (conf : Config)
    (cs : list ClusterConfig) :
  peers (NewInception NewRequest certFile keyFile otp conf) cs
  = map (fun c => Address c ++ "/v1") cs.
Proof.
  induction cs as [|c cs IH]; [reflexivity|].
  unfold peers in *. simpl. rewrite NewInception_no_own_address.
  simpl. rewrite IH. reflexivity.
Qed.

(** Two clusters, the first of which is the proxy itself. *)
Definition looped : Config :=
  mkConfig [mkCluster "self" "localhost:8989" "v1";
            mkCluster "other" "remote:8888" "v1"].

(** C8: a proxy listening at localhost:8989, with a cluster of that very
    address in its configuration, sends that cluster a request: the guard
    compares with [inceptionAddress], which [NewInception] leaves empty. *)
Theorem GetJobInfosByFilter_requests_own_address
    (certFile keyFile otp : string) (filtered : bool) (filter : JobInfo) :
  let server :=
    inceptionMode NewRequest certFile keyFile otp "localhost:8989" looped in
  listen_address server = "localhost:8989"
  /\ map Address (Cluster looped) = ["localhost:8989"; "remote:8888"]
  /\ inceptionAddress (implementer server) = ""
  /\ requests_of
       (snd (GetJobInfosByFilter (implementer server) filtered filter [0; 1]%nat))
     = [ReqJobs "localhost:8989/v1" "all" ""; ReqJobs "remote:8888/v1" "all" ""].
Proof.
  cbv zeta. repeat split.
Qed.

(** *** Routing of a job identifier *)

(** How often the separator occurs. *)
Fixpoint count_sep (s : string) (sep : ascii) : nat :=
  match s with
  | EmptyString => O
  | String c rest =>
      if Ascii.eqb c sep then S (count_sep rest sep) else count_sep rest sep
  end.

Lemma Contains_count (s : string) (sep : ascii) :
  Contains s sep = negb (Nat.eqb (count_sep s sep) 0).
Proof.
  induction s as [|c s IH]; simpl; [reflexivity|].
  destruct (Ascii.eqb c sep); [reflexivity | exact IH].
Qed.


Lemma Split_no_sep (s : string) (sep : ascii) :
  count_sep s sep = O -> Split s sep = [s].
Proof.
  induction s as [|c s IH]; simpl; [reflexivity|].
  destruct (Ascii.eqb c sep); [discriminate|].
  intros H. rewrite (IH H). reflexivity.
Qed.

Lemma Split_append (a b : string) (sep : ascii) :
  count_sep a sep = O ->
  Split (a ++ String sep b) sep = a :: Split b sep.
Proof.
  induction a as [|c a IH]; simpl.
  - rewrite Ascii.eqb_refl. reflexivity.
  - destruct (Ascii.eqb c sep); [discriminate|].
    intros H. rewrite (IH H). reflexivity.
Qed.

Lemma count_sep_append (a b : string) (sep : ascii) :
  count_sep (a ++ b) sep = (count_sep a sep + count_sep b sep)%nat.
Proof.
  induction a as [|c a IH]; simpl; [reflexivity|].
  destruct (Ascii.eqb c sep); simpl; rewrite IH; reflexivity.
Qed.

(** The request [getJobFromCluster] sends when the name is that of a
    configured cluster with an address: one [GetJob] for the job at the
    address of the first cluster of that name, whose answer it returns. *)
Lemma getJobFromCluster_requests (i : Inception) (c : ClusterConfig)
    (clustername jobid : string) :
  find_cluster (Cluster (config i)) clustername "" "v1"
  = (Address c, ProtocolVersion c) ->
  Address c <> "" ->
  fst (getJobFromCluster i clustername jobid)
  = Ok (GetJob (request i) (Address c ++ ProtocolVersion c) jobid)
  /\ requests_of (snd (getJobFromCluster i clustername jobid))
     = [ReqJob (Address c ++ ProtocolVersion c) jobid].
Proof.
  intros Hfind Haddr. unfold getJobFromCluster. rewrite Hfind.
  destruct (String.eqb (Address c) "") eqn:He.
  - apply String.eqb_eq in He. contradiction.
  - simpl.
    destruct (GetJob (request i) (Address c ++ ProtocolVersion c) jobid);
      split; reflexivity.
Qed.

(** Without a cluster of that name (or with one without address) no request
    is sent and the call fails. *)
Lemma getJobFromCluster_unknown (i : Inception) (clustername jobid version : string) :
  find_cluster (Cluster (config i)) clustername "" "v1" = ("", version) ->
  getJobFromCluster i clustername jobid
  = (Ok (Failure ("Couldn't find clustername in config: " ++ clustername)), []).
Proof.
  intros Hfind. unfold getJobFromCluster. rewrite Hfind. reflexivity.
Qed.









(** *** RunJob and JobOperation *)

(** C6, amended: on the aggregator [RunJob] and [JobOperation] return the
    empty string together with a nil error, for every input. *)
Theorem RunJob_JobOperation_return_zero_value
    (i : Inception) (template : JobTemplate)
    (jobsessionname operation jobid : string) :
  RunJob i template = ("", None)
  /\ JobOperation i jobsessionname operation jobid = ("", None).
Proof. split; reflexivity. Qed.

End Facts.

Arguments peers {JobInfo Machine Queue}.
Arguments skip_logs {JobInfo Machine Queue}.
Arguments jobs_of {JobInfo Machine Queue}.
Arguments machines_of {JobInfo Machine Queue}.
Arguments queues_of {JobInfo Machine Queue}.
Arguments categories_of {JobInfo Machine Queue}.

(** *** A proxy over two clusters *)

Definition two_clusters : Config :=
  mkConfig [mkCluster "default" "a:8888/" "v1";
            mkCluster "clusterA" "b:8888/" "v1"].

(** Peers that answer with job identifiers and names: the first cluster
    answers the reads, the second one knows the jobs. *)
Definition two_peers : Request string string string :=
  mkRequest
    (fun address state user =>
       if String.eqb address "a:8888//v1" then Some ["1"; "2"] else None)
    (fun request jobid =>
       if String.eqb request "b:8888/v1" then Success jobid
       else Failure "job not found")
    (fun address filter =>
       if String.eqb address "a:8888/v1" then Success ["m1"]
       else Failure "peer unreachable")
    (fun address filter =>
       if String.eqb address "a:8888/v1" then Success ["q1"]
       else Failure "peer unreachable")
    (fun address jsession category =>
       if String.eqb address "a:8888/v1" then ["c1"] else []).

(** A resolver that finds the name among the clusters. *)
Fixpoint resolve_in (cs : list ClusterConfig) (name : string)
  : fallible (string * string) :=
  match cs with
  | [] => Failure "Cluster not found"
  | c :: rest =>
      if String.eqb (Name c) name
      then Success (Address c ++ ProtocolVersion c, Name c)
      else resolve_in rest name
  end.

Definition proxy : Inception string string string :=
  NewInception (fun _ _ _ => two_peers) "cert" "key" "secret" two_clusters.

Lemma two_clusters_resolve :
  Forall (resolves (resolve_in (Cluster two_clusters)))
         (Cluster (config proxy)).
Proof.
  repeat constructor; eexists; reflexivity.
Qed.

Lemma swapped_schedule :
  schedule_of (List.length (peers proxy (Cluster (config proxy)))) [1; 0]%nat.
Proof. apply perm_swap. Qed.

(** The second peer fails every read; the reads return what the first one
    answered. *)
Lemma aggregate_reads_skip_failed_peers_witness :
  fst (GetJobInfosByFilter proxy false "" [1; 0]%nat) = Ok ["1"; "2"]
  /\ fst (GetAllMachines (resolve_in (Cluster two_clusters)) proxy [])
     = Ok (["m1"], None)
  /\ fst (GetAllQueues (resolve_in (Cluster two_clusters)) proxy [])
     = Ok (["q1"], None)
  /\ fst (GetAllCategories (resolve_in (Cluster two_clusters)) proxy)
     = Ok (["c1"], None).
Proof.
  destruct (aggregate_reads_skip_failed_peers _ _ _
              (resolve_in (Cluster two_clusters)) proxy false "" [1; 0]%nat
              [] [] two_clusters_resolve swapped_schedule)
    as [[Hj _] [Hm [Hq Hc]]].
  rewrite Hj, Hm, Hq, Hc. repeat split.
Defined.

Lemma GetJobInfosByFilter_ignores_filter_witness :
  GetJobInfosByFilter proxy true "7" [1; 0]%nat
  = GetJobInfosByFilter proxy false "" [1; 0]%nat.
Proof.
  exact (proj1 (GetJobInfosByFilter_ignores_filter _ _ _
                  proxy true false "7" "" [1; 0]%nat swapped_schedule)).
Defined.





(** The template of the proxy's own test: [sleep 0]. *)
Definition sleep_0 : Tracker.JobTemplate :=
  Tracker.mkTemplate "sleep" ["0"] "" "" "" [].

(** C6, as stated, fails: [RunJob] returns the empty identifier and a nil
    error, and so does [JobOperation]. *)
Lemma RunJob_returns_neither_id_nor_error :
  ~ (fst (RunJob proxy sleep_0) <> "" \/ snd (RunJob proxy sleep_0) <> None)
  /\ ~ (fst (JobOperation proxy "ubercluster" "suspend" "42") <> ""
        \/ snd (JobOperation proxy "ubercluster" "suspend" "42") <> None).
Proof.
  split; intros [H|H]; apply H; reflexivity.
Qed.

End InceptionFacts.

(** ** Properties of the environment window *)

Module TrackerFacts.
Import Tracker.

Local Open Scope string_scope.

Section Overlap.

Variable os_env : Type.
Variable Environ : os_env -> list string.
Variable Getenv : os_env -> string -> string.
Variable Setenv : string -> string -> os_env -> os_env.
Variable Unsetenv : string -> os_env -> os_env.
Variable validateJobTemplate : JobTemplate -> option string.
Variable Start : JobTemplate -> list string -> fallible nat.

Local Abbreviation run' :=
  (run Environ Getenv Setenv Unsetenv validateJobTemplate Start).

(** A call at [mtx.Lock()] whose mutex is held does not move: in the model
    a mutex does exclude, when it is one and the same. *)
Lemma step_waits_for_locked_mutex (s : state os_env) (n : nat) (c : call) :
  nth_error (calls s) n = Some c ->
  at_pc c = AtLock ->
  nth_error (mutexes s) (mtx c) = Some true ->
  step Environ Getenv Setenv Unsetenv validateJobTemplate Start s n = None.
Proof.
  intros Hc Hpc Hm. unfold step. rewrite Hc, Hpc, Hm. reflexivity.
Qed.

(** The first call runs up to [cmd.Start()], then the second one does. *)
Definition one_after_the_other : list nat :=
  [0; 0; 0; 0; 0; 1; 1; 1; 1; 1]%nat.

(** C9: two calls of [StartProcess] with valid templates can both be inside
    their overlay/restore window: each locks the mutex it declared itself,
    so the second call is not held back, and it reaches [cmd.Start()] in an
    environment that carries the overlay of the first job. *)
Theorem StartProcess_windows_overlap
    (e : os_env) (jobid1 jobid2 : string) (t1 t2 : JobTemplate) :
  validateJobTemplate t1 = None ->
  validateJobTemplate t2 = None ->
  exists (s : state os_env) (c1 c2 : call),
    run' one_after_the_other
         (start_state e [enter jobid1 t1; enter jobid2 t2]) = Some s
    /\ calls s = [c1; c2]
    /\ in_window c1 = true /\ in_window c2 = true
    /\ mtx c1 <> mtx c2
    /\ mutexes s = [true; true]
    /\ at_pc c2 = AtStart
    /\ process_env s = overlay Setenv t2 (overlay Setenv t1 e).
Proof.
  intros H1 H2.
  unfold one_after_the_other, start_state, enter.
  cbn [run step nth_error calls at_pc Tracker.t]. rewrite H1.
  cbn [run step nth_error calls at_pc Tracker.t set_nth goto mutexes
       List.length app mtx]. rewrite H2.
  cbn. eexists. exists
    {| jobid := jobid1; t := t1; at_pc := AtStart; mtx := 0;
       env := currentEnv Environ Getenv e |}.
  eexists. repeat split; try reflexivity. simpl. discriminate.
Qed.

End Overlap.

(** *** An environment for the example *)

(** The environment as the list of its variables. *)
Definition variables : Type := list (string * string).

Definition list_Environ (e : variables) : list string :=
  map (fun kv => fst kv ++ "=" ++ snd kv) e.

Fixpoint list_Getenv (e : variables) (key : string) : string :=
  match e with
  | [] => ""
  | (k, v) :: rest => if String.eqb k key then v else list_Getenv rest key
  end.

(** As in Go, a key that is empty or holds ['='] is refused. *)
Definition list_Setenv (key value : string) (e : variables) : variables :=
  if String.eqb key "" || Inception.Contains key "=" then e
  else map_set e key value.

Definition list_Unsetenv (key : string) (e : variables) : variables :=
  filter (fun kv => negb (String.eqb (fst kv) key)) e.

(** A template is taken to be valid when it names a command, and every
    command to start, as process 1. *)
Definition has_command (t : JobTemplate) : option string :=
  if String.eqb (RemoteCommand t) "" then Some "RemoteCommand not set"
  else None.

Definition starts (t : JobTemplate) (environ : list string)
  : fallible nat :=
  Success 1%nat.

Definition job_a : JobTemplate :=
  mkTemplate "sleep" ["0"] "" "" "" [("A", "1")].
Definition job_b : JobTemplate :=
  mkTemplate "sleep" ["0"] "" "" "" [("B", "2")].

(** Two jobs with the overlays A=1 and B=2, started from an environment
    that holds HOME only: the second job is about to start with A=1. *)
Lemma StartProcess_windows_overlap_witness :
  exists (s : state variables) (c1 c2 : call),
    run list_Environ list_Getenv list_Setenv list_Unsetenv
        has_command starts one_after_the_other
        (start_state [("HOME", "/root")]
                     [enter "1" job_a; enter "2" job_b]) = Some s
    /\ calls s = [c1; c2]
    /\ in_window c1 = true /\ in_window c2 = true
    /\ mtx c1 <> mtx c2
    /\ mutexes s = [true; true]
    /\ at_pc c2 = AtStart
    /\ process_env s
       = overlay list_Setenv job_b
           (overlay list_Setenv job_a [("HOME", "/root")]).
Proof.
  apply (StartProcess_windows_overlap variables list_Environ list_Getenv
           list_Setenv list_Unsetenv has_command starts
           [("HOME", "/root")] "1" "2" job_a job_b); reflexivity.
Defined.

(** The environment the second job would start in. *)
Lemma second_job_inherits_overlay :
  list_Environ
    (overlay list_Setenv job_b
       (overlay list_Setenv job_a [("HOME", "/root")]))
  = ["HOME=/root"; "A=1"; "B=2"].
Proof. reflexivity. Qed.

End TrackerFacts.

(** ** Further properties of the scheduler *)

Module SchedulerMore.
Import Scheduler SchedulerSetup SchedulerFacts.

(** X1: [getAllLoadValues] never panics and returns one slot per configured
    cluster; slot [i] is decided by the reply of cluster [i] alone: it holds
    what [Decode] left when [Decode] returned an error, and the zero value
    otherwise. *)
Theorem getAllLoadValues_one_slot_per_cluster (conf : Config) (net : Network) :
  exists load : list float64,
    getAllLoadValues conf net = Ok load
    /\ List.length load = List.length (Cluster conf)
    /\ forall (i : nat) (c : ClusterConfig),
         nth_error (Cluster conf) i = Some c ->
         nth_error load i = Some (slot_after (net (load_request c))).
Proof.
  exists (map (fun c => slot_after (net (load_request c))) (Cluster conf)).
  split; [apply getAllLoadValues_slots|]. split; [apply length_map|].
  intros i c Hc. rewrite nth_error_map, Hc. reflexivity.
Qed.

Lemma Forall_firstn_nth (P : Z -> Prop) (l : list Z) (k j : nat) :
  Forall P (firstn k l) -> (j < k)%nat -> (j < List.length l)%nat ->
  P (nth j l 0).
Proof.
  revert k j. induction l as [|a l IH]; intros k j H Hj Hl.
  - simpl in Hl. lia.
  - destruct k as [|k]; [lia|]. simpl in H. inversion H; subst.
    destruct j as [|j]; [assumption|].
    simpl. apply (IH k j); [assumption | lia | simpl in Hl; lia].
Qed.

Lemma nth_error_nth_Z (l : list Z) (k : nat) (z : Z) :
  nth_error l k = Some z -> nth k l 0 = z.
Proof.
  revert k. induction l as [|a l IH]; intros [|k] H; try discriminate.
  - inversion H. reflexivity.
  - simpl in *. apply IH. exact H.
Qed.

(** The outcome of the selection, read on the array it builds. *)
Lemma probabilisticSelection_cases (raw : Z) (loads : list float64) :
  probabilisticSelection raw loads = Ok (-1)
  \/ probabilisticSelection raw loads = Panic "invalid argument to Int63n"
  \/ exists (d : Z) (k : nat),
       0 <= d
       /\ probabilisticSelection raw loads = Ok (Z.of_nat k)
       /\ selects loads d k.
Proof.
  destruct (Z.leb_spec (last (likelyhood loads) 0) 0) as [Hle|Hgt].
  { left. apply probabilisticSelection_no_weight. exact Hle. }
  destruct (Int63n raw (sub64 (last (likelyhood loads) 0) 1))
    as [d|msg] eqn:Hdraw.
  - right. right.
    destruct (probabilisticSelection_selects raw loads d Hgt Hdraw)
      as [k [Hk Hs]].
    exists d, k. split; [|auto].
    unfold Int63n in Hdraw.
    destruct (sub64 (last (likelyhood loads) 0) 1 <=? 0) eqn:Hn;
      [discriminate|].
    apply Z.leb_gt in Hn. inversion Hdraw.
    apply Z.mod_pos_bound. exact Hn.
  - right. left. unfold probabilisticSelection.
    destruct (Z.of_nat (List.length loads) <=? 0) eqn:H0.
    { apply Z.leb_le in H0. destruct loads; [simpl in Hgt; lia|].
      simpl in H0. lia. }
    cbv zeta. destruct (last (likelyhood loads) 0 <=? 0) eqn:H1.
    { apply Z.leb_le in H1. lia. }
    rewrite Hdraw. unfold Int63n in Hdraw.
    destruct (sub64 (last (likelyhood loads) 0) 1 <=? 0);
      [inversion Hdraw; reflexivity | discriminate].
Qed.

(** X2: a cluster whose weight [int64((1 - load) * 10000)] is 0, as it is
    for the load 1.0, is never the one [probabilisticSelection] returns. *)
Theorem zero_weight_never_selected
    (raw : Z) (loads : list float64) (k : nat) (v : float64) :
  nth_error loads k = Some v ->
  weight v = 0 ->
  probabilisticSelection raw loads <> Ok (Z.of_nat k).
Proof.
  intros Hk Hw.
  destruct (probabilisticSelection_cases raw loads)
    as [H|[H|[d [k' [Hd [H [Hlt [Habove Hbelow]]]]]]]]; rewrite H.
  - intros E. inversion E. lia.
  - discriminate.
  - intros E. inversion E as [E']. apply Nat2Z.inj in E'. subst k'.
    pose proof (likelyhood_from_step loads None k v Hk) as Hstep.
    fold (likelyhood loads) in Hstep.
    apply nth_error_nth_Z in Hstep. rewrite Hstep, Hw in Habove.
    destruct k as [|j]; [lia|].
    assert (Hlen : List.length (likelyhood loads) = List.length loads)
      by apply likelyhood_from_length.
    assert (Hj : nth j (likelyhood loads) 0 <= d).
    { apply (Forall_firstn_nth _ _ (S j) j Hbelow); lia. }
    assert (Hr : in_int64 (nth j (likelyhood loads) 0)).
    { pose proof (likelyhood_from_range loads None) as Hall.
      rewrite Forall_forall in Hall. apply Hall. apply nth_In.
      fold (likelyhood loads). lia. }
    unfold add64 in Habove. rewrite Z.add_0_r, wrap64_small in Habove by exact Hr.
    lia.
Qed.

(** The load 1.0 has the weight 0, and among the loads 0.5, 1.0 the second
    is not selected by the raw value 7000. *)
Lemma zero_weight_never_selected_witness :
  probabilisticSelection 7000 [f64 0.5; f64 1] <> Ok (Z.of_nat 1).
Proof.
  apply (zero_weight_never_selected 7000 [f64 0.5; f64 1] 1 (f64 1)).
  - reflexivity.
  - vm_compute. reflexivity.
Defined.

(** X3: [ProbSched.SelectCluster] has three outcomes: the name of a
    configured cluster, the name "default", or the panic of [rand.Int63n];
    it never indexes the cluster list out of range. *)
Theorem ProbSched_SelectCluster_outcomes
    (conf : Config) (net : Network) (raw : Z) :
  (exists c : ClusterConfig,
     In c (Cluster conf)
     /\ ProbSched_SelectCluster conf net raw = Ok (Name c))
  \/ ProbSched_SelectCluster conf net raw = Ok "default"%string
  \/ ProbSched_SelectCluster conf net raw = Panic "invalid argument to Int63n".
Proof.
  unfold ProbSched_SelectCluster. rewrite getAllLoadValues_slots. simpl.
  set (loads := map (fun c => slot_after (net (load_request c))) (Cluster conf)).
  destruct (probabilisticSelection_cases raw loads)
    as [H|[H|[d [k [Hd [H [Hlt _]]]]]]]; rewrite H; simpl.
  - right. left. reflexivity.
  - right. right. reflexivity.
  - left. unfold loads in Hlt. rewrite length_map in Hlt.
    destruct (Z.of_nat k >=? 0) eqn:Hk.
    + unfold cluster_name. rewrite Nat2Z.id.
      destruct (nth_error (Cluster conf) k) as [c|] eqn:Hc.
      * exists c. split; [eapply nth_error_In; exact Hc | reflexivity].
      * apply nth_error_None in Hc. lia.
    + rewrite Z.geb_leb in Hk. apply Z.leb_gt in Hk. lia.
Qed.

(** X4: when the fetched loads add up to a weight that is not positive, and
    in particular when no cluster is configured, [ProbSched.SelectCluster]
    returns "default", whatever the random generator holds. *)
Theorem ProbSched_default_without_weight
    (conf : Config) (net : Network) (raw : Z) :
  last (likelyhood
          (map (fun c => slot_after (net (load_request c))) (Cluster conf))) 0
  <= 0 ->
  ProbSched_SelectCluster conf net raw = Ok "default"%string.
Proof.
  intros H. apply (ProbSched_default conf net raw _ (getAllLoadValues_slots conf net)).
  exact H.
Qed.

(** Two configured clusters whose stored load is 1.0 each: both weights are
    0, so is their total, and the selection falls back to "default" although
    neither cluster has that name. *)
Definition both_busy : Config :=
  mkConfig [mkCluster "north" "http://north:8888" "v1";
            mkCluster "south" "http://south:8888" "v1"].

Definition both_busy_net : Network :=
  fun _ => Body (f64 1.0) (Some "json: trailing data"%string).

Lemma ProbSched_default_without_weight_witness :
  List.length (Cluster both_busy) = 2%nat
  /\ last (likelyhood
             (map (fun c => slot_after (both_busy_net (load_request c)))
                  (Cluster both_busy))) 0 = 0
  /\ ProbSched_SelectCluster both_busy both_busy_net 42
     = Ok "default"%string.
Proof.
  split; [reflexivity|]. split; [vm_compute; reflexivity|].
  apply ProbSched_default_without_weight. vm_compute. discriminate.
Defined.

Lemma minLoad_all_zero (n : nat) : minLoad (repeat f64_zero (S n)) = O.
Proof.
  unfold minLoad. simpl.
  change (f64_lt f64_zero MaxFloat64) with true. cbv iota.
  generalize 1%nat. induction n as [|n IH]; intros k; simpl; [reflexivity|].
  apply IH.
Qed.

Lemma slots_zero_without_decode_error (net : Network)
    (cs : list ClusterConfig) :
  Forall (fun c => forall v msg, net (load_request c) <> Body v (Some msg)) cs ->
  map (fun c => slot_after (net (load_request c))) cs
  = repeat f64_zero (List.length cs).
Proof.
  induction 1 as [|c cs Hhd Htl IH]; simpl; [reflexivity|].
  rewrite IH. f_equal. unfold slot_after.
  destruct (net (load_request c)) as [|v [msg|]]; try reflexivity.
  exfalso. apply (Hhd v msg). reflexivity.
Qed.

(** X5: when no reply ends in a decoding error (every peer answers a load,
    or cannot be reached), no load is stored, all slots are equal, and
    [LoadBasedSched.SelectCluster] returns the first configured cluster
    whatever the peers reported. *)
Theorem LoadBasedSched_selects_first_without_decode_error
    (conf : Config) (net : Network) (c0 : ClusterConfig)
    (rest : list ClusterConfig) :
  Cluster conf = c0 :: rest ->
  Forall (fun c => forall v msg, net (load_request c) <> Body v (Some msg))
         (Cluster conf) ->
  LoadBasedSched_SelectCluster conf net = Ok (Name c0).
Proof.
  intros Hc Hall. unfold LoadBasedSched_SelectCluster, cluster_name.
  rewrite getAllLoadValues_slots. simpl.
  rewrite (slots_zero_without_decode_error net (Cluster conf) Hall), Hc.
  simpl List.length. rewrite minLoad_all_zero. reflexivity.
Qed.

(** Two peers that report the loads 0.9 and 0.1: the first one is chosen. *)
Definition busy_then_idle : Config :=
  mkConfig [mkCluster "busy" "http://busy:8888" "v1";
            mkCluster "idle" "http://idle:8888" "v1"].

Definition busy_then_idle_net : Network :=
  fun request =>
    if String.eqb request "http://busy:8888/v1/drmsload"
    then Body (f64 0.9) None
    else Body (f64 0.1) None.

Lemma LoadBasedSched_selects_first_without_decode_error_witness :
  LoadBasedSched_SelectCluster busy_then_idle busy_then_idle_net
  = Ok "busy"%string.
Proof.
  apply (LoadBasedSched_selects_first_without_decode_error
           busy_then_idle busy_then_idle_net
           (mkCluster "busy" "http://busy:8888" "v1")
           [mkCluster "idle" "http://idle:8888" "v1"]).
  - reflexivity.
  - repeat constructor; intros v msg; vm_compute; discriminate.
Defined.

(** X6: [RandomSched.SelectCluster] panics in [rand.Intn] when no cluster is
    configured, and otherwise returns the name of a configured cluster. *)
Theorem RandomSched_SelectCluster_outcomes (conf : Config) (raw : Z) :
  (Cluster conf = []
   /\ RandomSched_SelectCluster conf raw = Panic "invalid argument to Intn")
  \/ (exists c : ClusterConfig,
        In c (Cluster conf)
        /\ RandomSched_SelectCluster conf raw = Ok (Name c)).
Proof.
  unfold RandomSched_SelectCluster, Intn, cluster_name.
  destruct (Cluster conf) as [|c0 cs] eqn:Hc.
  - left. split; reflexivity.
  - right.
    remember (Z.of_nat (List.length (c0 :: cs))) as n eqn:En.
    assert (Hn : 0 < n) by (subst n; simpl; lia).
    destruct (n <=? 0) eqn:H0.
    { apply Z.leb_le in H0. lia. }
    cbn [bind].
    pose proof (Z.mod_pos_bound raw n Hn) as Hb.
    destruct (nth_error (c0 :: cs) (Z.to_nat (raw mod n))) as [c|] eqn:Hk.
    + exists c. split; [eapply nth_error_In; exact Hk | reflexivity].
    + apply nth_error_None in Hk. lia.
Qed.

(** After the first scheduler is made the generator is seeded, and it stays
    so. *)
Lemma make_all_seeded (requests : list (Z * Config * Z)) :
  forall g : globals,
    seeded g = true -> snd (make_all requests g) = g.
Proof.
  induction requests as [|[[st config] now] rest IH]; intros g Hg; simpl.
  - reflexivity.
  - rewrite Hg. simpl.
    specialize (IH g Hg). destruct (make_all rest g) as [made g''].
    simpl in *. exact IH.
Qed.

(** X7: however many schedulers a program makes, [rand.Seed] is called
    once, by the first [MakeNewScheduler], with the clock of that call. *)
Theorem MakeNewScheduler_seeds_once
    (st : Z) (config : Config) (now : Z) (rest : list (Z * Config * Z)) :
  snd (make_all ((st, config, now) :: rest) program_start)
  = {| seeded := true; seeds := [now] |}.
Proof.
  simpl.
  pose proof (make_all_seeded rest {| seeded := true; seeds := [now] |}
                eq_refl) as H.
  destruct (make_all rest {| seeded := true; seeds := [now] |}) as [made g].
  simpl in *. exact H.
Qed.

(** *** Clusters of equal load *)

(** The sums [p + w], [p + 2w], ... *)
Fixpoint ramp (p w : Z) (n : nat) : list Z :=
  match n with
  | O => []
  | S n' => (p + w) :: ramp (p + w) w n'
  end.

Lemma likelyhood_from_ramp (w : Z) (loads : list float64) :
  0 <= w ->
  Forall (fun v => weight v = w) loads ->
  forall p : Z,
    0 <= p ->
    p + Z.of_nat (List.length loads) * w <= int64_max ->
    likelyhood_from (Some p) loads = ramp p w (List.length loads).
Proof.
  intros Hw. induction 1 as [|v loads Hv Hall IH]; intros p Hp Hmax;
    [reflexivity|].
  cbn [likelyhood_from List.length ramp]. rewrite Hv.
  change (List.length (v :: loads)) with (S (List.length loads)) in Hmax.
  rewrite Nat2Z.inj_succ in Hmax.
  assert (Hsmall : add64 p w = p + w).
  { unfold add64. apply wrap64_small.
    unfold in_int64, int64_min, int64_max in *. nia. }
  rewrite Hsmall. f_equal. apply IH; nia.
Qed.

Lemma likelyhood_ramp (w : Z) (loads : list float64) :
  0 <= w ->
  Forall (fun v => weight v = w) loads ->
  Z.of_nat (List.length loads) * w <= int64_max ->
  likelyhood loads = ramp 0 w (List.length loads).
Proof.
  intros Hw Hall Hmax. unfold likelyhood.
  destruct Hall as [|v loads Hv Hall]; [reflexivity|].
  cbn [likelyhood_from List.length ramp]. rewrite Hv. f_equal.
  change (List.length (v :: loads)) with (S (List.length loads)) in Hmax.
  rewrite Nat2Z.inj_succ in Hmax.
  apply (likelyhood_from_ramp w loads Hw Hall); nia.
Qed.

Lemma last_ramp (w : Z) (n : nat) :
  forall p : Z, last (ramp p w (S n)) 0 = p + Z.of_nat (S n) * w.
Proof.
  induction n as [|n IH]; intros p.
  - cbn [ramp last]. change (Z.of_nat 1) with 1. lia.
  - change (ramp p w (S (S n))) with ((p + w) :: ramp (p + w) w (S n)).
    change (last ((p + w) :: ramp (p + w) w (S n)) 0)
      with (last (ramp (p + w) w (S n)) 0).
    rewrite IH. rewrite (Nat2Z.inj_succ (S n)). lia.
Qed.

Lemma first_above_ramp (w : Z) (n : nat) :
  0 < w ->
  forall k0 p d : Z,
    p <= d < p + Z.of_nat n * w ->
    first_above k0 (ramp p w n) d = k0 + (d - p) / w.
Proof.
  intros Hw. induction n as [|n IH]; intros k0 p d Hd.
  - simpl in Hd. lia.
  - cbn [ramp first_above].
    destruct (p + w >? d) eqn:Hgt.
    + apply Z.gtb_lt in Hgt. rewrite Z.div_small by lia. lia.
    + assert (Hle : p + w <= d).
      { destruct (Z.gtb_spec (p + w) d); [discriminate | lia]. }
      rewrite Nat2Z.inj_succ in Hd.
      rewrite IH by lia.
      replace (d - p) with ((d - (p + w)) + 1 * w) by lia.
      rewrite Z.div_add by lia. lia.
Qed.

(** The selection among clusters of one weight is the draw divided by the
    weight. *)
Lemma selection_of_equal_weights (raw w : Z) (loads : list float64) :
  0 < w ->
  Forall (fun v => weight v = w) loads ->
  1 < Z.of_nat (List.length loads) * w <= int64_max ->
  probabilisticSelection raw loads
  = Ok ((raw mod (Z.of_nat (List.length loads) * w - 1)) / w).
Proof.
  intros Hw Hall Hn.
  assert (Hlh : likelyhood loads = ramp 0 w (List.length loads))
    by (apply likelyhood_ramp; [lia | exact Hall | lia]).
  unfold probabilisticSelection. rewrite Hlh.
  remember (List.length loads) as n eqn:En.
  destruct n as [|n']; [simpl in Hn; lia|].
  rewrite last_ramp, Z.add_0_l.
  remember (Z.of_nat (S n') * w) as total eqn:Et.
  destruct (Z.of_nat (S n') <=? 0) eqn:H0.
  { apply Z.leb_le in H0. lia. }
  cbv zeta.
  destruct (total <=? 0) eqn:H1.
  { apply Z.leb_le in H1. lia. }
  unfold sub64. rewrite wrap64_small
    by (unfold in_int64, int64_min, int64_max in *; lia).
  unfold Int63n.
  destruct (total - 1 <=? 0) eqn:H2.
  { apply Z.leb_le in H2. lia. }
  cbn [bind]. f_equal.
  pose proof (Z.mod_pos_bound raw (total - 1) ltac:(lia)) as Hd.
  rewrite (first_above_ramp w (S n') Hw 0 0) by lia.
  rewrite Z.sub_0_r. lia.
Qed.



Lemma weight_zero_load : weight f64_zero = 10000.
Proof. vm_compute. reflexivity. Qed.

(** X9: when no reply ends in a decoding error, every slot is zero and
    every cluster weighs 10000: [ProbSched.SelectCluster] returns the
    cluster at index [(raw mod (10000 * n - 1)) / 10000] of the [n]
    configured ones, whatever loads the peers reported. *)
Theorem ProbSched_selects_blindly_without_decode_error
    (conf : Config) (net : Network) (raw : Z) :
  Cluster conf <> [] ->
  Z.of_nat (List.length (Cluster conf)) * 10000 <= int64_max ->
  Forall (fun c => forall v msg, net (load_request c) <> Body v (Some msg))
         (Cluster conf) ->
  exists c : ClusterConfig,
    nth_error (Cluster conf)
      (Z.to_nat ((raw mod (Z.of_nat (List.length (Cluster conf)) * 10000 - 1))
                 / 10000)) = Some c
    /\ ProbSched_SelectCluster conf net raw = Ok (Name c).
Proof.
  intros Hne Hmax Hall.
  set (n := Z.of_nat (List.length (Cluster conf))) in *.
  assert (Hn : 1 <= n).
  { unfold n. destruct (Cluster conf); [congruence | simpl; lia]. }
  unfold ProbSched_SelectCluster. rewrite getAllLoadValues_slots.
  rewrite (slots_zero_without_decode_error net (Cluster conf) Hall).
  cbn [bind].
  rewrite (selection_of_equal_weights raw 10000).
  - cbn [bind].
    pose proof (Z.mod_pos_bound raw (n * 10000 - 1) ltac:(lia)) as Hd.
    rewrite repeat_length. fold n.
    set (k := (raw mod (n * 10000 - 1)) / 10000).
    assert (Hk : 0 <= k < n).
    { unfold k. split.
      - apply Z.div_pos; lia.
      - apply Z.div_lt_upper_bound; lia. }
    destruct (k >=? 0) eqn:Hge.
    + unfold cluster_name.
      destruct (nth_error (Cluster conf) (Z.to_nat k)) as [c|] eqn:Hc.
      * exists c. split; reflexivity.
      * apply nth_error_None in Hc. unfold n in Hk. lia.
    + rewrite Z.geb_leb in Hge. apply Z.leb_gt in Hge. lia.
  - lia.
  - apply Forall_forall. intros v Hv. apply repeat_spec in Hv. subst v.
    exact weight_zero_load.
  - rewrite repeat_length. fold n. lia.
Qed.

Lemma ProbSched_selects_blindly_without_decode_error_witness :
  exists c : ClusterConfig,
    nth_error (Cluster busy_then_idle)
      (Z.to_nat ((5 mod (Z.of_nat (List.length (Cluster busy_then_idle))
                         * 10000 - 1)) / 10000)) = Some c
    /\ ProbSched_SelectCluster busy_then_idle busy_then_idle_net 5
       = Ok (Name c).
Proof.
  apply (ProbSched_selects_blindly_without_decode_error
           busy_then_idle busy_then_idle_net 5).
  - discriminate.
  - simpl. unfold int64_max. lia.
  - repeat constructor; intros v msg; vm_compute; discriminate.
Defined.

(** X10: [LoadBasedSched.SelectCluster] panics, indexing an empty cluster
    list, exactly when no cluster is configured; with a cluster it always
    returns a name. *)
Theorem LoadBasedSched_panics_iff_no_cluster (conf : Config) (net : Network) :
  LoadBasedSched_SelectCluster conf net = Panic "index out of range"
  <-> Cluster conf = [].
Proof.
  split.
  - intros H. destruct (Cluster conf) as [|c cs] eqn:Hc; [reflexivity|].
    destruct (LoadBasedSched_selects_minLoad conf net) as [l [c' [_ [_ E]]]].
    + rewrite Hc. discriminate.
    + rewrite E in H. discriminate.
  - intros H. unfold LoadBasedSched_SelectCluster, cluster_name.
    rewrite getAllLoadValues_slots, H. reflexivity.
Qed.

End SchedulerMore.

(** ** Further properties of the inception proxy *)

Module InceptionMore.
Import Inception InceptionFacts.

Local Open Scope string_scope.

Lemma length_append (a b : string) :
  String.length (a ++ b) = (String.length a + String.length b)%nat.
Proof.
  induction a as [|c a IH]; simpl; [reflexivity | rewrite IH; reflexivity].
Qed.

Lemma append_inj_r (t : string) :
  forall a b : string, a ++ t = b ++ t -> a = b.
Proof.
  induction a as [|c a IH]; intros [|d b] H; simpl in H.
  - reflexivity.
  - exfalso. apply (f_equal String.length) in H. simpl in H.
    rewrite length_append in H. lia.
  - exfalso. apply (f_equal String.length) in H. simpl in H.
    rewrite length_append in H. lia.
  - inversion H as [[Hc Ht]]. f_equal. apply IH. exact Ht.
Qed.

Lemma requests_of_cons (e : event) (tr : list event) :
  requests_of (e :: tr)
  = if is_request e then e :: requests_of tr else requests_of tr.
Proof. reflexivity. Qed.

Lemma snd_emit {A : Type} (e : event) (k : unit -> Proc A) :
  snd (pbind (emit e) k) = e :: snd (k tt).
Proof. unfold pbind, emit. destruct (k tt). reflexivity. Qed.

Lemma In_scheduled {A : Type} (order : list nat) (l : list A) (a : A) :
  In a (scheduled order l) -> In a l.
Proof.
  unfold scheduled. intros H. apply in_flat_map in H.
  destruct H as [k [_ Hk]].
  destruct (nth_error l k) as [b|] eqn:Hb; [|contradiction].
  destruct Hk as [Hk|[]]. subst b. eapply nth_error_In. exact Hb.
Qed.

Section More.

Variables JobInfo Machine Queue : Type.
Variable GetClusterAddress : string -> fallible (string * string).

Local Abbreviation Inception := (Inception JobInfo Machine Queue).

(** *** Looking a job up *)

Lemma find_cluster_none (cs : list ClusterConfig) (name address version : string) :
  Forall (fun c => Name c <> name) cs ->
  find_cluster cs name address version = (address, version).
Proof.
  induction 1 as [|c cs Hc Hcs IH]; simpl; [reflexivity|].
  destruct (String.eqb_spec (Name c) name) as [E|E]; [contradiction|].
  exact IH.
Qed.

Lemma find_cluster_first (pre post : list ClusterConfig) (c : ClusterConfig)
    (name address version : string) :
  Forall (fun c' => Name c' <> name) pre ->
  Name c = name ->
  find_cluster (pre ++ c :: post) name address version
  = (Address c, ProtocolVersion c).
Proof.
  induction 1 as [|c' pre Hc Hpre IH]; intros Hn; simpl.
  - rewrite Hn, String.eqb_refl. reflexivity.
  - destruct (String.eqb_spec (Name c') name) as [E|E]; [contradiction|].
    apply IH. exact Hn.
Qed.

Lemma GetJobInfo_suffix (i : Inception) (id cluster : string) :
  count_sep id "@" = O -> count_sep cluster "@" = O ->
  GetJobInfo i (id ++ "@" ++ cluster)
  = pbind (getJobFromCluster i cluster id) (fun job => ret (job_or_nil job)).
Proof.
  intros Hid Hcl. unfold GetJobInfo.
  rewrite Contains_count, count_sep_append. simpl.
  rewrite Hid, Hcl. simpl.
  rewrite (Split_append id cluster "@" Hid), (Split_no_sep cluster "@" Hcl).
  reflexivity.
Qed.

Lemma GetJobInfo_plain (i : Inception) (jobid : string) :
  count_sep jobid "@" = O ->
  GetJobInfo i jobid
  = pbind (getJobFromCluster i "default" jobid)
          (fun job => ret (job_or_nil job)).
Proof.
  intros H. unfold GetJobInfo. rewrite Contains_count, H. reflexivity.
Qed.

Lemma getJobFromCluster_no_cluster (i : Inception) (name id : string) :
  Forall (fun c => Name c <> name) (Cluster (config i)) ->
  getJobFromCluster i name id
  = (Ok (Failure ("Couldn't find clustername in config: " ++ name)), []).
Proof.
  intros Hno. unfold getJobFromCluster.
  rewrite (find_cluster_none _ _ _ _ Hno). reflexivity.
Qed.

(** X11: when no configured cluster has the name asked for,
    [getJobFromCluster] sends no request and returns the error "Couldn't
    find clustername in config: <name>"; [GetJobInfo] then returns nil, for
    an identifier [id@name] as for a plain identifier when no cluster is
    named "default". *)
Theorem getJobFromCluster_unknown_name
    (i : Inception) (name id : string) :
  Forall (fun c => Name c <> name) (Cluster (config i)) ->
  getJobFromCluster i name id
  = (Ok (Failure ("Couldn't find clustername in config: " ++ name)), [])
  /\ (count_sep id "@" = O -> count_sep name "@" = O ->
      GetJobInfo i (id ++ "@" ++ name) = (Ok None, []))
  /\ (count_sep id "@" = O -> name = "default" ->
      GetJobInfo i id = (Ok None, [])).
Proof.
  intros Hno.
  pose proof (getJobFromCluster_no_cluster i name id Hno) as Hg.
  split; [exact Hg|]. split.
  - intros Hid Hname. rewrite (GetJobInfo_suffix i id name Hid Hname), Hg.
    reflexivity.
  - intros Hid Hname. subst name. rewrite (GetJobInfo_plain i id Hid), Hg.
    reflexivity.
Qed.

(** X12: the first configured cluster of the name decides: with an address,
    the one request goes to its address followed by its protocol version,
    whatever clusters of the same name follow; with an empty address the
    lookup fails as for an unknown name, also when a later cluster of that
    name has an address. *)
Theorem getJobFromCluster_first_match
    (i : Inception) (pre post : list ClusterConfig) (c : ClusterConfig)
    (name id : string) :
  Cluster (config i) = (pre ++ c :: post)%list ->
  Forall (fun c' => Name c' <> name) pre ->
  Name c = name ->
  (Address c <> "" ->
   fst (getJobFromCluster i name id)
   = Ok (GetJob (request i) (Address c ++ ProtocolVersion c) id)
   /\ requests_of (snd (getJobFromCluster i name id))
      = [ReqJob (Address c ++ ProtocolVersion c) id])
  /\ (Address c = "" ->
      getJobFromCluster i name id
      = (Ok (Failure ("Couldn't find clustername in config: " ++ name)), [])).
Proof.
  intros Hcs Hpre Hname.
  assert (Hfind : find_cluster (Cluster (config i)) name "" "v1"
                  = (Address c, ProtocolVersion c)).
  { rewrite Hcs. apply find_cluster_first; assumption. }
  split.
  - intros Haddr.
    apply (getJobFromCluster_requests _ _ _ i c name id Hfind Haddr).
  - intros Haddr. unfold getJobFromCluster. rewrite Hfind, Haddr.
    reflexivity.
Qed.

Lemma getJobFromCluster_shape (i : Inception) (name id : string) :
  exists (r : fallible JobInfo) (tr : list event),
    getJobFromCluster i name id = (Ok r, tr)
    /\ (List.length (requests_of tr) <= 1)%nat.
Proof.
  unfold getJobFromCluster.
  destruct (find_cluster (Cluster (config i)) name "" "v1") as [address version].
  destruct (String.eqb address ""); simpl.
  - eexists. eexists. split; [reflexivity | simpl; lia].
  - destruct (GetJob (request i) (address ++ version) id);
      eexists; eexists; (split; [reflexivity | simpl; lia]).
Qed.

(** X13: for every identifier [GetJobInfo] returns, without a panic, and
    sends at most one request. *)
Theorem GetJobInfo_at_most_one_request (i : Inception) (jobid : string) :
  exists job : option JobInfo,
    fst (GetJobInfo i jobid) = Ok job
    /\ (List.length (requests_of (snd (GetJobInfo i jobid))) <= 1)%nat.
Proof.
  assert (Hb : forall name id,
             exists job : option JobInfo,
               fst (pbind (getJobFromCluster i name id)
                          (fun job => ret (job_or_nil job))) = Ok job
               /\ (List.length
                     (requests_of
                        (snd (pbind (getJobFromCluster i name id)
                                    (fun job => ret (job_or_nil job))))) <= 1)%nat).
  { intros name id.
    destruct (getJobFromCluster_shape i name id) as [r [tr [E Hlen]]].
    rewrite E. simpl. rewrite app_nil_r.
    exists (job_or_nil r). split; [reflexivity | exact Hlen]. }
  unfold GetJobInfo. destruct (Contains jobid "@").
  - destruct (Split jobid "@") as [|p1 [|p2 [|p3 ps]]];
      try (exists None; split; [reflexivity | simpl; lia]).
    apply Hb.
  - apply Hb.
Qed.

(** *** The guard as the code has it *)

(** X14: whatever the schedule, [GetJobInfosByFilter] sends no request to a
    cluster whose address followed by "/" is [inceptionAddress]. *)
Theorem GetJobInfosByFilter_skips_inceptionAddress
    (i : Inception) (filtered : bool) (filter : JobInfo) (order : list nat)
    (address : string) :
  address ++ "/" = inceptionAddress i ->
  ~ In (ReqJobs (address ++ "/v1") "all" "")
       (requests_of (snd (GetJobInfosByFilter i filtered filter order))).
Proof.
  intros Hown Hin.
  rewrite (GetJobInfosByFilter_requests _ _ _ i filtered filter order) in Hin.
  apply in_map_iff in Hin. destruct Hin as [a [Ha Hin]].
  inversion Ha as [Ea]. apply In_scheduled in Hin.
  unfold peers in Hin. apply in_flat_map in Hin.
  destruct Hin as [c [_ Hc]].
  destruct (own_address i c) eqn:Ho; [contradiction|].
  destruct Hc as [Hc|[]]. rewrite <- Hc in Ea.
  apply append_inj_r in Ea.
  unfold own_address in Ho. rewrite Ea, Hown, String.eqb_refl in Ho.
  discriminate.
Qed.

(** *** The sequential reads *)

Definition machine_requests (i : Inception) (cs : list ClusterConfig)
  : list event :=
  flat_map (fun c => if own_address i c then []
                     else [ReqMachines (peer_address GetClusterAddress c) "all"])
           cs.

Definition queue_requests (i : Inception) (cs : list ClusterConfig)
  : list event :=
  flat_map (fun c => if own_address i c then []
                     else [ReqQueues (peer_address GetClusterAddress c) "all"])
           cs.

Definition category_requests (i : Inception) (cs : list ClusterConfig)
  : list event :=
  flat_map (fun c => if own_address i c then []
                     else [ReqJobCategories (peer_address GetClusterAddress c)
                                            "ubercluster" "all"])
           cs.

Ltac step_emit := rewrite snd_emit, requests_of_cons; cbn [is_request].

Lemma GetAllMachines_loop_requests (i : Inception) (cs : list ClusterConfig) :
  Forall (resolves GetClusterAddress) cs ->
  forall allmachines : list Machine,
    requests_of (snd (GetAllMachines_loop GetClusterAddress i cs allmachines))
    = machine_requests i cs.
Proof.
  induction 1 as [|c cs [[a n] Hc] Hcs IH]; intros acc;
    cbn [GetAllMachines_loop machine_requests flat_map]; [reflexivity|].
  step_emit. unfold peer_address.
  destruct (own_address i c).
  - apply IH.
  - rewrite Hc. step_emit.
    destruct (GetMachines (request i) a "all"); step_emit;
      rewrite IH; reflexivity.
Qed.

Lemma GetAllQueues_loop_requests (i : Inception) (cs : list ClusterConfig) :
  Forall (resolves GetClusterAddress) cs ->
  forall allqueues : list Queue,
    requests_of (snd (GetAllQueues_loop GetClusterAddress i cs allqueues))
    = queue_requests i cs.
Proof.
  induction 1 as [|c cs [[a n] Hc] Hcs IH]; intros acc;
    cbn [GetAllQueues_loop queue_requests flat_map]; [reflexivity|].
  step_emit. unfold peer_address.
  destruct (own_address i c).
  - apply IH.
  - rewrite Hc. step_emit.
    destruct (GetQueues (request i) a "all"); step_emit;
      rewrite IH; reflexivity.
Qed.

Lemma GetAllCategories_loop_requests (i : Inception) (cs : list ClusterConfig) :
  Forall (resolves GetClusterAddress) cs ->
  forall cat : list string,
    requests_of (snd (GetAllCategories_loop GetClusterAddress i cs cat))
    = category_requests i cs.
Proof.
  induction 1 as [|c cs [[a n] Hc] Hcs IH]; intros acc;
    cbn [GetAllCategories_loop category_requests flat_map]; [reflexivity|].
  step_emit. unfold peer_address.
  destruct (own_address i c).
  - step_emit. apply IH.
  - rewrite Hc. step_emit. rewrite IH. reflexivity.
Qed.

(** X15: [GetAllMachines], [GetAllQueues] and [GetAllCategories] send one
    request per cluster that is not taken for the proxy itself, in the order
    of the configuration, each to the address the name resolves to and each
    asking for "all": the lists [machines] and [queues] given by the caller
    are not read. *)
Theorem sequential_reads_request_all
    (i : Inception) (machines queues : list string) :
  Forall (resolves GetClusterAddress) (Cluster (config i)) ->
  requests_of (snd (GetAllMachines GetClusterAddress i machines))
  = machine_requests i (Cluster (config i))
  /\ requests_of (snd (GetAllQueues GetClusterAddress i queues))
     = queue_requests i (Cluster (config i))
  /\ requests_of (snd (GetAllCategories GetClusterAddress i))
     = category_requests i (Cluster (config i)).
Proof.
  intros H. split; [|split].
  - apply GetAllMachines_loop_requests. exact H.
  - apply GetAllQueues_loop_requests. exact H.
  - apply GetAllCategories_loop_requests. exact H.
Qed.

Lemma GetAllMachines_loop_panics (i : Inception) (pre post : list ClusterConfig)
    (c : ClusterConfig) (err : string) :
  Forall (resolves GetClusterAddress) pre ->
  own_address i c = false ->
  GetClusterAddress (Name c) = Failure err ->
  forall allmachines : list Machine,
    fst (GetAllMachines_loop GetClusterAddress i (pre ++ c :: post) allmachines)
    = Panic err
    /\ requests_of
         (snd (GetAllMachines_loop GetClusterAddress i (pre ++ c :: post)
                                   allmachines))
       = machine_requests i pre.
Proof.
  intros Hpre Hown Herr.
  induction Hpre as [|c' pre [[a n] Hc] Hpre IH]; intros acc;
    cbn [app GetAllMachines_loop machine_requests flat_map].
  - rewrite fst_emit, snd_emit, requests_of_cons, Hown, Herr. split; reflexivity.
  - rewrite fst_emit. step_emit. unfold peer_address.
    destruct (own_address i c').
    + apply IH.
    + rewrite Hc, fst_emit. step_emit.
      destruct (GetMachines (request i) a "all"); rewrite fst_emit; step_emit;
        destruct (IH acc) as [H1 H2];
        [destruct (IH (acc ++ a0)%list) as [H3 H4]; rewrite H3, H4; split; reflexivity
        | rewrite H1, H2; split; reflexivity].
Qed.

Lemma GetAllQueues_loop_panics (i : Inception) (pre post : list ClusterConfig)
    (c : ClusterConfig) (err : string) :
  Forall (resolves GetClusterAddress) pre ->
  own_address i c = false ->
  GetClusterAddress (Name c) = Failure err ->
  forall allqueues : list Queue,
    fst (GetAllQueues_loop GetClusterAddress i (pre ++ c :: post) allqueues)
    = Panic err
    /\ requests_of
         (snd (GetAllQueues_loop GetClusterAddress i (pre ++ c :: post)
                                 allqueues))
       = queue_requests i pre.
Proof.
  intros Hpre Hown Herr.
  induction Hpre as [|c' pre [[a n] Hc] Hpre IH]; intros acc;
    cbn [app GetAllQueues_loop queue_requests flat_map].
  - rewrite fst_emit, snd_emit, requests_of_cons, Hown, Herr. split; reflexivity.
  - rewrite fst_emit. step_emit. unfold peer_address.
    destruct (own_address i c').
    + apply IH.
    + rewrite Hc, fst_emit. step_emit.
      destruct (GetQueues (request i) a "all"); rewrite fst_emit; step_emit;
        destruct (IH acc) as [H1 H2];
        [destruct (IH (acc ++ a0)%list) as [H3 H4]; rewrite H3, H4; split; reflexivity
        | rewrite H1, H2; split; reflexivity].
Qed.

Lemma GetAllCategories_loop_panics (i : Inception)
    (pre post : list ClusterConfig) (c : ClusterConfig) (err : string) :
  Forall (resolves GetClusterAddress) pre ->
  own_address i c = false ->
  GetClusterAddress (Name c) = Failure err ->
  forall cat : list string,
    fst (GetAllCategories_loop GetClusterAddress i (pre ++ c :: post) cat)
    = Panic err
    /\ requests_of
         (snd (GetAllCategories_loop GetClusterAddress i (pre ++ c :: post) cat))
       = category_requests i pre.
Proof.
  intros Hpre Hown Herr.
  induction Hpre as [|c' pre [[a n] Hc] Hpre IH]; intros acc;
    cbn [app GetAllCategories_loop category_requests flat_map].
  - rewrite fst_emit, snd_emit, requests_of_cons, Hown, Herr. split; reflexivity.
  - rewrite fst_emit. step_emit. unfold peer_address.
    destruct (own_address i c').
    + rewrite fst_emit. step_emit. apply IH.
    + rewrite Hc, fst_emit. step_emit.
      destruct (IH (acc ++ GetJobCategories (request i) a "ubercluster" "all")%list)
        as [H1 H2].
      rewrite H1, H2. split; reflexivity.
Qed.

(** X16: the first configured cluster whose name does not resolve (and that
    is not taken for the proxy itself) makes [GetAllMachines],
    [GetAllQueues] and [GetAllCategories] panic with the error of the
    resolver: the caller gets neither the partial result nor an error value,
    and only the clusters before it were asked. *)
Theorem sequential_reads_panic_on_unresolved_name
    (i : Inception) (pre post : list ClusterConfig) (c : ClusterConfig)
    (err : string) (machines queues : list string) :
  Cluster (config i) = (pre ++ c :: post)%list ->
  Forall (resolves GetClusterAddress) pre ->
  own_address i c = false ->
  GetClusterAddress (Name c) = Failure err ->
  (fst (GetAllMachines GetClusterAddress i machines) = Panic err
   /\ requests_of (snd (GetAllMachines GetClusterAddress i machines))
      = machine_requests i pre)
  /\ (fst (GetAllQueues GetClusterAddress i queues) = Panic err
      /\ requests_of (snd (GetAllQueues GetClusterAddress i queues))
         = queue_requests i pre)
  /\ (fst (GetAllCategories GetClusterAddress i) = Panic err
      /\ requests_of (snd (GetAllCategories GetClusterAddress i))
         = category_requests i pre).
Proof.
  intros Hcs Hpre Hown Herr.
  unfold GetAllMachines, GetAllQueues, GetAllCategories. rewrite Hcs.
  split; [|split].
  - apply GetAllMachines_loop_panics; assumption.
  - apply GetAllQueues_loop_panics; assumption.
  - apply GetAllCategories_loop_panics; assumption.
Qed.

End More.

Arguments machine_requests {JobInfo Machine Queue}.
Arguments queue_requests {JobInfo Machine Queue}.
Arguments category_requests {JobInfo Machine Queue}.

(** *** Examples over the proxy of two clusters *)

Lemma getJobFromCluster_unknown_name_witness :
  getJobFromCluster proxy "nowhere" "42"
  = (Ok (Failure "Couldn't find clustername in config: nowhere"), []).
Proof.
  apply (proj1 (getJobFromCluster_unknown_name _ _ _ proxy "nowhere" "42"
                  ltac:(repeat constructor; simpl; discriminate))).
Defined.

(** Two clusters of one name: the first is asked. *)
Definition named_twice : Inception string string string :=
  mkInception "" (mkConfig [mkCluster "a" "first:1/" "v1";
                            mkCluster "a" "second:2/" "v2"]) two_peers.

Lemma getJobFromCluster_first_match_witness :
  requests_of (snd (getJobFromCluster named_twice "a" "42"))
  = [ReqJob "first:1/v1" "42"].
Proof.
  apply (proj1 (getJobFromCluster_first_match _ _ _ named_twice []
                  [mkCluster "a" "second:2/" "v2"]
                  (mkCluster "a" "first:1/" "v1") "a" "42"
                  eq_refl (Forall_nil _) eq_refl)).
  simpl. discriminate.
Defined.

(** A proxy that knows its own address, with a trailing slash. *)
Definition self_aware : Inception string string string :=
  mkInception "localhost:8989/" looped two_peers.

Lemma GetJobInfosByFilter_skips_inceptionAddress_witness :
  ~ In (ReqJobs ("localhost:8989" ++ "/v1") "all" "")
       (requests_of (snd (GetJobInfosByFilter self_aware false "" [0]%nat))).
Proof.
  apply (GetJobInfosByFilter_skips_inceptionAddress _ _ _ self_aware false ""
           [0]%nat "localhost:8989").
  reflexivity.
Defined.

Lemma sequential_reads_request_all_witness :
  requests_of (snd (GetAllMachines (resolve_in (Cluster two_clusters)) proxy
                                   ["m7"]))
  = [ReqMachines "a:8888/v1" "all"; ReqMachines "b:8888/v1" "all"].
Proof.
  apply (proj1 (sequential_reads_request_all _ _ _
                  (resolve_in (Cluster two_clusters)) proxy ["m7"] []
                  two_clusters_resolve)).
Defined.

(** A resolver that knows the first cluster only. *)
Definition first_only : string -> fallible (string * string) :=
  resolve_in [mkCluster "default" "a:8888/" "v1"].

Lemma sequential_reads_panic_on_unresolved_name_witness :
  fst (GetAllQueues first_only proxy []) = Panic "Cluster not found"
  /\ requests_of (snd (GetAllQueues first_only proxy []))
     = [ReqQueues "a:8888/v1" "all"].
Proof.
  apply (proj1 (proj2 (sequential_reads_panic_on_unresolved_name _ _ _
                  first_only proxy [mkCluster "default" "a:8888/" "v1"] []
                  (mkCluster "clusterA" "b:8888/" "v1") "Cluster not found"
                  [] [] eq_refl
                  ltac:(repeat constructor; eexists; reflexivity)
                  eq_refl eq_refl))).
Defined.

End InceptionMore.

(** ** Further properties of the environment window *)

Module TrackerMore.
Import Tracker TrackerFacts.

Local Open Scope string_scope.

Lemma nth_error_set_nth_same {A : Type} (l : list A) (n : nat) (a b : A) :
  nth_error l n = Some b -> nth_error (set_nth l n a) n = Some a.
Proof.
  revert n. induction l as [|x l IH]; intros [|n] H; try discriminate.
  - reflexivity.
  - simpl in *. apply IH. exact H.
Qed.

Lemma nth_error_set_nth_other {A : Type} (l : list A) (n m : nat) (a : A) :
  m <> n -> nth_error (set_nth l n a) m = nth_error l m.
Proof.
  revert n m. induction l as [|x l IH]; intros [|n] [|m] H; simpl;
    try reflexivity; try congruence.
  apply IH. congruence.
Qed.

Section Interleavings.

Variable os_env : Type.
Variable Environ : os_env -> list string.
Variable Getenv : os_env -> string -> string.
Variable Setenv : string -> string -> os_env -> os_env.
Variable Unsetenv : string -> os_env -> os_env.
Variable validateJobTemplate : JobTemplate -> option string.
Variable Start : JobTemplate -> list string -> fallible nat.

Local Abbreviation step' :=
  (step Environ Getenv Setenv Unsetenv validateJobTemplate Start).
Local Abbreviation run' :=
  (run Environ Getenv Setenv Unsetenv validateJobTemplate Start).

(** The calls of a program that starts the given jobs. *)
Definition entered (jobs : list (string * JobTemplate)) : list call :=
  map (fun job => enter (fst job) (snd job)) jobs.

(** A call that has declared its mutex and has not returned. *)
Definition active (c : call) : bool :=
  match at_pc c with
  | AtValidate | AtDeclareMutex | Returned _ => false
  | _ => true
  end.

(** Every call past its declaration has a mutex of its own, and that mutex
    is locked exactly while the call is inside its window. *)
Definition own_mutexes (s : state os_env) : Prop :=
  (forall n c, nth_error (calls s) n = Some c -> active c = true ->
               nth_error (mutexes s) (mtx c) = Some (in_window c))
  /\ (forall n m c c',
        nth_error (calls s) n = Some c -> nth_error (calls s) m = Some c' ->
        active c = true -> active c' = true -> mtx c = mtx c' -> n = m).

Lemma own_mutexes_update (s : state os_env) (n : nat) (c c' : call)
    (ms' : list bool) (e' : os_env) (ch' : list (string * list string)) :
  own_mutexes s ->
  nth_error (calls s) n = Some c ->
  (active c' = true -> nth_error ms' (mtx c') = Some (in_window c')) ->
  (forall m cm, m <> n -> nth_error (calls s) m = Some cm ->
                active cm = true ->
                nth_error ms' (mtx cm) = Some (in_window cm)) ->
  (active c' = true ->
   forall m cm, m <> n -> nth_error (calls s) m = Some cm ->
                active cm = true -> mtx cm <> mtx c') ->
  own_mutexes {| process_env := e'; mutexes := ms';
                 calls := set_nth (calls s) n c'; children := ch' |}.
Proof.
  intros [I1 I2] Hc Hnew Hold Hfresh. split; simpl.
  - intros m cm Hm Ha.
    destruct (Nat.eq_dec m n) as [E|E].
    + subst m. rewrite (nth_error_set_nth_same _ _ _ _ Hc) in Hm.
      inversion Hm; subst cm. apply Hnew. exact Ha.
    + rewrite nth_error_set_nth_other in Hm by exact E.
      apply (Hold m cm E Hm Ha).
  - intros m1 m2 c1 c2 H1 H2 A1 A2 Hmtx.
    destruct (Nat.eq_dec m1 n) as [E1|E1]; destruct (Nat.eq_dec m2 n) as [E2|E2].
    + congruence.
    + subst m1. rewrite (nth_error_set_nth_same _ _ _ _ Hc) in H1.
      inversion H1; subst c1.
      rewrite nth_error_set_nth_other in H2 by exact E2.
      exfalso. apply (Hfresh A1 m2 c2 E2 H2 A2). congruence.
    + subst m2. rewrite (nth_error_set_nth_same _ _ _ _ Hc) in H2.
      inversion H2; subst c2.
      rewrite nth_error_set_nth_other in H1 by exact E1.
      exfalso. apply (Hfresh A2 m1 c1 E1 H1 A1). congruence.
    + rewrite nth_error_set_nth_other in H1 by exact E1.
      rewrite nth_error_set_nth_other in H2 by exact E2.
      apply (I2 m1 m2 c1 c2 H1 H2 A1 A2 Hmtx).
Qed.

Lemma own_mutexes_bound (s : state os_env) (n : nat) (c : call) :
  own_mutexes s -> nth_error (calls s) n = Some c -> active c = true ->
  (mtx c < List.length (mutexes s))%nat.
Proof.
  intros [I1 _] Hc Ha. apply nth_error_Some. rewrite (I1 n c Hc Ha).
  discriminate.
Qed.

(** A statement of one call keeps the mutexes of all calls apart. *)
Lemma step_own_mutexes (s s' : state os_env) (n : nat) :
  own_mutexes s -> step' s n = Some s' -> own_mutexes s'.
Proof.
  intros Hinv Hstep. unfold step in Hstep.
  destruct (nth_error (calls s) n) as [c|] eqn:Hc; [|discriminate].
  pose proof Hinv as [I1 I2].
  assert (Hsame : forall m cm, m <> n -> nth_error (calls s) m = Some cm ->
                    active cm = true ->
                    nth_error (mutexes s) (mtx cm) = Some (in_window cm)).
  { intros m cm _ Hm Ha. apply (I1 m cm Hm Ha). }
  assert (Hother : active c = true ->
                   forall b m cm, m <> n -> nth_error (calls s) m = Some cm ->
                     active cm = true ->
                     nth_error (set_nth (mutexes s) (mtx c) b) (mtx cm)
                     = Some (in_window cm)).
  { intros Hac b m cm Hmn Hm Ha.
    rewrite nth_error_set_nth_other; [apply (I1 m cm Hm Ha)|].
    intros E. apply Hmn. apply (I2 m n cm c Hm Hc Ha Hac E). }
  assert (Hapart : active c = true ->
                   forall m cm, m <> n -> nth_error (calls s) m = Some cm ->
                     active cm = true -> mtx cm <> mtx c).
  { intros Hac m cm Hmn Hm Ha E. apply Hmn.
    apply (I2 m n cm c Hm Hc Ha Hac E). }
  destruct (at_pc c) eqn:Hpc.
  - (* validateJobTemplate *)
    destruct (validateJobTemplate (t c)); inversion Hstep; subst s';
      apply (own_mutexes_update s n c _ _ _ _ Hinv Hc); simpl;
      try discriminate; exact Hsame.
  - (* var mtx sync.Mutex *)
    inversion Hstep; subst s'.
    apply (own_mutexes_update s n c _ _ _ _ Hinv Hc); simpl.
    + intros _. rewrite nth_error_app2 by lia. rewrite Nat.sub_diag.
      reflexivity.
    + intros m cm Hmn Hm Ha.
      rewrite nth_error_app1 by (apply (own_mutexes_bound s m cm Hinv Hm Ha)).
      apply (I1 m cm Hm Ha).
    + intros _ m cm Hmn Hm Ha.
      pose proof (own_mutexes_bound s m cm Hinv Hm Ha). lia.
  - (* mtx.Lock() *)
    assert (Hac : active c = true) by (unfold active; rewrite Hpc; reflexivity).
    destruct (nth_error (mutexes s) (mtx c)) as [[|]|] eqn:Hm;
      try discriminate.
    inversion Hstep; subst s'.
    apply (own_mutexes_update s n c _ _ _ _ Hinv Hc); simpl.
    + intros _. apply (nth_error_set_nth_same _ _ _ false Hm).
    + apply (Hother Hac).
    + intros _. apply (Hapart Hac).
  - (* env := currentEnv() *)
    assert (Hac : active c = true) by (unfold active; rewrite Hpc; reflexivity).
    inversion Hstep; subst s'.
    apply (own_mutexes_update s n c _ _ _ _ Hinv Hc); simpl.
    + intros _. rewrite (I1 n c Hc Hac). unfold in_window. rewrite Hpc.
      reflexivity.
    + exact Hsame.
    + intros _. apply (Hapart Hac).
  - (* the overlay *)
    assert (Hac : active c = true) by (unfold active; rewrite Hpc; reflexivity).
    inversion Hstep; subst s'.
    apply (own_mutexes_update s n c _ _ _ _ Hinv Hc); simpl.
    + intros _. rewrite (I1 n c Hc Hac). unfold in_window. rewrite Hpc.
      reflexivity.
    + exact Hsame.
    + intros _. apply (Hapart Hac).
  - (* cmd.Start() *)
    assert (Hac : active c = true) by (unfold active; rewrite Hpc; reflexivity).
    destruct (Start (t c) (Environ (process_env s))); inversion Hstep; subst s';
      apply (own_mutexes_update s n c _ _ _ _ Hinv Hc); simpl;
      try exact Hsame; try (intros _; apply (Hapart Hac));
      intros _; rewrite (I1 n c Hc Hac); unfold in_window; rewrite Hpc;
      reflexivity.
  - (* restoreEnv(env) *)
    assert (Hac : active c = true) by (unfold active; rewrite Hpc; reflexivity).
    inversion Hstep; subst s'.
    apply (own_mutexes_update s n c _ _ _ _ Hinv Hc); simpl.
    + intros _. rewrite (I1 n c Hc Hac). unfold in_window. rewrite Hpc.
      reflexivity.
    + exact Hsame.
    + intros _. apply (Hapart Hac).
  - (* mtx.Unlock() *)
    assert (Hac : active c = true) by (unfold active; rewrite Hpc; reflexivity).
    inversion Hstep; subst s'.
    apply (own_mutexes_update s n c _ _ _ _ Hinv Hc); simpl;
      try discriminate. apply (Hother Hac).
  - (* mtx.Unlock() after a failed Start *)
    assert (Hac : active c = true) by (unfold active; rewrite Hpc; reflexivity).
    inversion Hstep; subst s'.
    apply (own_mutexes_update s n c _ _ _ _ Hinv Hc); simpl;
      try discriminate. apply (Hother Hac).
  - discriminate.
Qed.

Lemma entered_at_validate (jobs : list (string * JobTemplate)) (n : nat)
    (c : call) :
  nth_error (entered jobs) n = Some c -> at_pc c = AtValidate.
Proof.
  unfold entered. rewrite nth_error_map.
  destruct (nth_error jobs n); [|discriminate].
  intros H. inversion H. reflexivity.
Qed.

Lemma start_own_mutexes (e : os_env) (jobs : list (string * JobTemplate)) :
  own_mutexes (start_state e (entered jobs)).
Proof.
  split; simpl.
  - intros n c Hc Ha. apply entered_at_validate in Hc.
    unfold active in Ha. rewrite Hc in Ha. discriminate.
  - intros n m c c' Hc _ Ha. apply entered_at_validate in Hc.
    unfold active in Ha. rewrite Hc in Ha. discriminate.
Qed.

Lemma run_own_mutexes (schedule : list nat) :
  forall s s' : state os_env,
    own_mutexes s -> run' schedule s = Some s' -> own_mutexes s'.
Proof.
  induction schedule as [|n rest IH]; intros s s' Hinv Hrun; simpl in Hrun.
  - inversion Hrun. subst s'. exact Hinv.
  - destruct (step' s n) as [s1|] eqn:Hstep; [|discriminate].
    apply (IH s1 s'); [|exact Hrun].
    apply (step_own_mutexes s s1 n Hinv Hstep).
Qed.

(** X17: whatever the interleaving of any number of calls of
    [StartProcess], no call ever waits: in every state the program reaches,
    every call that has not returned can execute its next statement, its
    [mtx.Lock()] included, because the mutex it locks is its own. *)
Theorem StartProcess_never_waits
    (e : os_env) (jobs : list (string * JobTemplate)) (schedule : list nat)
    (s : state os_env) (n : nat) (c : call) :
  run' schedule (start_state e (entered jobs)) = Some s ->
  nth_error (calls s) n = Some c ->
  (forall r, at_pc c <> Returned r) ->
  exists s' : state os_env, step' s n = Some s'.
Proof.
  intros Hrun Hc Hnot.
  pose proof (run_own_mutexes schedule _ s (start_own_mutexes e jobs) Hrun)
    as [I1 _].
  unfold step. rewrite Hc.
  destruct (at_pc c) eqn:Hpc; try (eexists; reflexivity).
  - destruct (validateJobTemplate (t c)); eexists; reflexivity.
  - assert (Ha : active c = true) by (unfold active; rewrite Hpc; reflexivity).
    rewrite (I1 n c Hc Ha). unfold in_window. rewrite Hpc.
    eexists. reflexivity.
  - destruct (Start (t c) (Environ (process_env s))); eexists; reflexivity.
  - exfalso. apply (Hnot r). reflexivity.
Qed.

(** A statement of one call leaves the other calls as they are. *)
Lemma step_other_call (s s' : state os_env) (n m : nat) :
  step' s n = Some s' -> m <> n ->
  nth_error (calls s') m = nth_error (calls s) m.
Proof.
  intros Hstep Hm. unfold step in Hstep.
  destruct (nth_error (calls s) n) as [c|]; [|discriminate].
  destruct (at_pc c);
    repeat match type of Hstep with
           | context [match ?x with _ => _ end] => destruct x
           end;
    try discriminate; inversion Hstep; simpl;
    apply nth_error_set_nth_other; exact Hm.
Qed.

(** A call that was refused stays where it is: it cannot move again. *)
Lemma run_refused (schedule : list nat) (n : nat) (err : string) :
  forall (s s' : state os_env) (c : call),
    nth_error (calls s) n = Some c ->
    at_pc c = Returned (Failure err) ->
    run' schedule s = Some s' ->
    nth_error (calls s') n = Some c.
Proof.
  induction schedule as [|m rest IH]; intros s s' c Hc Hpc Hrun;
    simpl in Hrun.
  - inversion Hrun. subst s'. exact Hc.
  - destruct (step' s m) as [s1|] eqn:Hstep; [|discriminate].
    destruct (Nat.eq_dec m n) as [E|E].
    + subst m. unfold step in Hstep. rewrite Hc, Hpc in Hstep. discriminate.
    + apply (IH s1 s' c); [|exact Hpc|exact Hrun].
      rewrite (step_other_call s s1 m n Hstep); [exact Hc | congruence].
Qed.

Lemma run_invalid (schedule : list nat) (n : nat) (err : string) :
  forall (s s' : state os_env) (c : call),
    nth_error (calls s) n = Some c ->
    at_pc c = AtValidate ->
    validateJobTemplate (t c) = Some err ->
    run' schedule s = Some s' ->
    (~ In n schedule /\ nth_error (calls s') n = Some c)
    \/ (In n schedule
        /\ nth_error (calls s') n = Some (goto c (Returned (Failure err)))).
Proof.
  induction schedule as [|m rest IH]; intros s s' c Hc Hpc Hv Hrun;
    simpl in Hrun.
  - inversion Hrun. subst s'. left. split; [intros [] | exact Hc].
  - destruct (step' s m) as [s1|] eqn:Hstep; [|discriminate].
    destruct (Nat.eq_dec m n) as [E|E].
    + subst m. right. split; [left; reflexivity|].
      unfold step in Hstep. rewrite Hc, Hpc, Hv in Hstep.
      inversion Hstep. subst s1.
      eapply (run_refused rest n err); [| |exact Hrun].
      * simpl. eapply nth_error_set_nth_same. exact Hc.
      * reflexivity.
    + assert (Hc1 : nth_error (calls s1) n = Some c).
      { rewrite (step_other_call s s1 m n Hstep); [exact Hc | congruence]. }
      destruct (IH s1 s' c Hc1 Hpc Hv Hrun) as [[Hn H]|[Hn H]].
      * left. split; [|exact H]. intros [Hm|Hin]; [congruence | contradiction].
      * right. split; [right; exact Hn | exact H].
Qed.

(** X18: a call whose template [validateJobTemplate] refuses never locks a
    mutex and never enters the window, whatever the other calls do: in every
    state the program reaches it stands before the validation or, once it
    has moved, it has returned the error of the validation. *)
Theorem invalid_template_returns_before_the_window
    (e : os_env) (jobs : list (string * JobTemplate)) (schedule : list nat)
    (s : state os_env) (n : nat) (jobid : string) (tpl : JobTemplate)
    (err : string) :
  nth_error jobs n = Some (jobid, tpl) ->
  validateJobTemplate tpl = Some err ->
  run' schedule (start_state e (entered jobs)) = Some s ->
  exists c : call,
    nth_error (calls s) n = Some c
    /\ in_window c = false
    /\ (if in_dec Nat.eq_dec n schedule
        then at_pc c = Returned (Failure err)
        else at_pc c = AtValidate).
Proof.
  intros Hjob Hv Hrun.
  assert (Hc : nth_error (calls (start_state e (entered jobs))) n
               = Some (enter jobid tpl)).
  { simpl. unfold entered. rewrite nth_error_map, Hjob. reflexivity. }
  destruct (run_invalid schedule n err _ s _ Hc eq_refl Hv Hrun)
    as [[Hn H]|[Hn H]].
  - exists (enter jobid tpl). split; [exact H|]. split; [reflexivity|].
    destruct (in_dec Nat.eq_dec n schedule); [contradiction | reflexivity].
  - exists (goto (enter jobid tpl) (Returned (Failure err))).
    split; [exact H|]. split; [reflexivity|].
    destruct (in_dec Nat.eq_dec n schedule); [reflexivity | contradiction].
Qed.

(** The statements of one call, from its entry to its return. *)
Definition alone_to_the_end : list nat := [0; 0; 0; 0; 0; 0; 0; 0]%nat.
Definition alone_until_start_fails : list nat := [0; 0; 0; 0; 0; 0; 0]%nat.

(** X19: when [cmd.Start()] fails, [StartProcess] unlocks its mutex and
    returns the error without calling [restoreEnv]: the process keeps the
    environment with the overlay of the job that did not start, and no child
    is recorded. *)
Theorem failed_Start_leaves_the_overlay
    (e : os_env) (jobid : string) (tpl : JobTemplate) (err : string) :
  validateJobTemplate tpl = None ->
  Start tpl (Environ (overlay Setenv tpl e)) = Failure err ->
  run' alone_until_start_fails (start_state e [enter jobid tpl])
  = Some {| process_env := overlay Setenv tpl e;
            mutexes := [false];
            calls := [{| jobid := jobid; t := tpl;
                         at_pc := Returned (Failure err);
                         mtx := 0;
                         env := currentEnv Environ Getenv e |}];
            children := [] |}.
Proof.
  intros Hv Hs. unfold alone_until_start_fails, start_state, enter.
  cbn [run step nth_error calls at_pc Tracker.t]. rewrite Hv.
  cbn [run step nth_error calls at_pc Tracker.t set_nth goto mutexes
       List.length app mtx process_env children Tracker.jobid Tracker.env].
  rewrite Hs. reflexivity.
Qed.

(** *** The snapshot *)

Lemma map_set_In (m : env_map) (key value k v : string) :
  In (k, v) (map_set m key value) ->
  (k = key /\ v = value) \/ In (k, v) m.
Proof.
  induction m as [|[k0 v0] m IH]; simpl.
  - intros [H|[]]. inversion H. left. split; reflexivity.
  - destruct (String.eqb_spec k0 key) as [E|E]; simpl.
    + intros [H|H].
      * inversion H. subst. left. split; reflexivity.
      * right. right. exact H.
    + intros [H|H].
      * right. left. exact H.
      * destruct (IH H) as [H'|H']; [left; exact H' | right; right; exact H'].
Qed.

Lemma map_set_sets (m : env_map) (key value : string) :
  In (key, value) (map_set m key value).
Proof.
  induction m as [|[k0 v0] m IH]; simpl.
  - left. reflexivity.
  - destruct (String.eqb_spec k0 key) as [E|E]; simpl.
    + left. subst. reflexivity.
    + right. exact IH.
Qed.

Lemma map_set_keeps (m : env_map) (key value k v : string) :
  k <> key -> In (k, v) m -> In (k, v) (map_set m key value).
Proof.
  intros Hk. induction m as [|[k0 v0] m IH]; simpl; [intros []|].
  destruct (String.eqb_spec k0 key) as [E|E]; simpl.
  - intros [H|H]; [inversion H; subst; contradiction | right; exact H].
  - intros [H|H]; [left; exact H | right; apply IH; exact H].
Qed.

Lemma map_set_fst (m : env_map) (key value : string) :
  map fst (map_set m key value)
  = if in_dec string_dec key (map fst m) then map fst m
    else (map fst m ++ [key])%list.
Proof.
  induction m as [|[k0 v0] m IH]; simpl; [reflexivity|].
  destruct (String.eqb_spec k0 key) as [E|E]; simpl.
  - destruct (string_dec k0 key); [|contradiction].
    reflexivity.
  - rewrite IH. destruct (string_dec k0 key); [contradiction|].
    destruct (in_dec string_dec key (map fst m)); reflexivity.
Qed.

Lemma map_set_NoDup (m : env_map) (key value : string) :
  NoDup (map fst m) -> NoDup (map fst (map_set m key value)).
Proof.
  intros H. rewrite map_set_fst.
  destruct (in_dec string_dec key (map fst m)) as [Hin|Hin]; [exact H|].
  apply NoDup_app; [exact H | constructor; [intros [] | constructor] |].
  intros x Hx [Hk|[]]. subst x. contradiction.
Qed.

(** X20: the snapshot [currentEnv] takes has one entry for every distinct
    element of [os.Environ()], keyed by the whole element as [os.Environ()]
    gives it, with the value [os.Getenv] returns for that element taken as a
    name. *)
Theorem currentEnv_keyed_by_entries (e : os_env) :
  (forall k v : string,
     In (k, v) (currentEnv Environ Getenv e) ->
     In k (Environ e) /\ v = Getenv e k)
  /\ (forall x : string,
        In x (Environ e) ->
        In (x, Getenv e x) (currentEnv Environ Getenv e))
  /\ NoDup (map fst (currentEnv Environ Getenv e)).
Proof.
  unfold currentEnv.
  assert (H : forall (xs : list string) (m : env_map),
             let m' := fold_left (fun env x => map_set env x (Getenv e x)) xs m in
             (forall k v, In (k, v) m' ->
                          (In k xs /\ v = Getenv e k) \/ In (k, v) m)
             /\ (forall x, In x xs -> In (x, Getenv e x) m')
             /\ (forall k, In (k, Getenv e k) m -> In (k, Getenv e k) m')
             /\ (NoDup (map fst m) -> NoDup (map fst m'))).
  { induction xs as [|x xs IH]; intros m; cbn zeta; simpl.
    - repeat split; auto. intros x [].
    - destruct (IH (map_set m x (Getenv e x))) as [H1 [H2 [H3 H4]]].
      cbn zeta in *. repeat split.
      + intros k v Hin. destruct (H1 k v Hin) as [[Hk Hv]|Hm].
        * left. split; [right; exact Hk | exact Hv].
        * destruct (map_set_In _ _ _ _ _ Hm) as [[Hk Hv]|Hm'].
          -- left. subst. split; [left; reflexivity | reflexivity].
          -- right. exact Hm'.
      + intros y [Hy|Hy].
        * subst y. apply H3. apply map_set_sets.
        * apply H2. exact Hy.
      + intros k Hk. apply H3.
        destruct (string_dec k x) as [E|E].
        * subst k. apply map_set_sets.
        * apply map_set_keeps; assumption.
      + intros Hnd. apply H4. apply map_set_NoDup. exact Hnd. }
  destruct (H (Environ e) []) as [H1 [H2 [_ H4]]]. cbn zeta in *.
  split; [|split].
  - intros k v Hin. destruct (H1 k v Hin) as [Hk|[]]. exact Hk.
  - exact H2.
  - apply H4. constructor.
Qed.

(** *** The laws of package os that make the restore void *)

Section OsLaws.

(** Every entry of [os.Environ()] has the form key=value, and a key that
    holds ['='] names no variable: [os.Setenv] refuses it and
    [os.Unsetenv] finds nothing to unset. *)
Hypothesis Environ_entries :
  forall (e : os_env) (x : string),
    In x (Environ e) -> Inception.Contains x "=" = true.
Hypothesis Setenv_refuses :
  forall (key value : string) (e : os_env),
    Inception.Contains key "=" = true -> Setenv key value e = e.
Hypothesis Unsetenv_finds_nothing :
  forall (key : string) (e : os_env),
    Inception.Contains key "=" = true -> Unsetenv key e = e.

Lemma map_set_keys (m : env_map) (key value : string) (P : string -> Prop) :
  Forall (fun kv => P (fst kv)) m -> P key ->
  Forall (fun kv => P (fst kv)) (map_set m key value).
Proof.
  induction 1 as [|[k v] m Hk Hm IH]; intros Hkey; simpl.
  - constructor; [exact Hkey | constructor].
  - destruct (String.eqb k key).
    + constructor; [exact Hk | exact Hm].
    + constructor; [exact Hk | apply IH; exact Hkey].
Qed.

(** The keys of the snapshot are whole entries of [os.Environ()]. *)
Lemma currentEnv_keys (e : os_env) :
  Forall (fun kv => In (fst kv) (Environ e)) (currentEnv Environ Getenv e).
Proof.
  unfold currentEnv.
  assert (H : forall (xs : list string) (m : env_map),
             Forall (fun kv => In (fst kv) (Environ e)) m ->
             Forall (fun x => In x (Environ e)) xs ->
             Forall (fun kv => In (fst kv) (Environ e))
                    (fold_left (fun env x => map_set env x (Getenv e x)) xs m)).
  { induction xs as [|x xs IH]; intros m Hm Hxs; simpl; [exact Hm|].
    inversion Hxs; subst. apply IH; [|assumption].
    apply (map_set_keys m x (Getenv e x) (fun k => In k (Environ e)));
      assumption. }
  apply H; [constructor|]. apply Forall_forall. auto.
Qed.

Lemma restoreEnv_void (e0 e : os_env) :
  restoreEnv Environ Setenv Unsetenv (currentEnv Environ Getenv e0) e = e.
Proof.
  unfold restoreEnv.
  assert (Hclear : forall (xs : list string) (acc : os_env),
             Forall (fun x => Inception.Contains x "=" = true) xs ->
             fold_left (fun acc x => Unsetenv x acc) xs acc = acc).
  { induction xs as [|x xs IH]; intros acc Hxs; simpl; [reflexivity|].
    inversion Hxs; subst. rewrite Unsetenv_finds_nothing by assumption.
    apply IH. assumption. }
  rewrite Hclear
    by (apply Forall_forall; intros x Hx; apply (Environ_entries e x Hx)).
  assert (Hset : forall (m : env_map) (acc : os_env),
             Forall (fun kv => Inception.Contains (fst kv) "=" = true) m ->
             fold_left (fun acc kv => Setenv (fst kv) (snd kv) acc) m acc = acc).
  { induction m as [|kv m IH]; intros acc Hm; simpl; [reflexivity|].
    inversion Hm; subst. rewrite Setenv_refuses by assumption.
    apply IH. assumption. }
  apply Hset.
  eapply Forall_impl; [|apply currentEnv_keys].
  intros kv Hkv. apply (Environ_entries e0 _ Hkv).
Qed.

(** X21: on an operating system with these laws [restoreEnv(currentEnv())]
    changes nothing, because the snapshot is keyed by whole key=value
    entries: a call of [StartProcess] that runs alone from its entry to its
    return leaves the overlay of its job in the environment of the process,
    where the next job finds it. *)
Theorem overlay_outlives_StartProcess
    (e : os_env) (jobid : string) (tpl : JobTemplate) (pid : nat) :
  validateJobTemplate tpl = None ->
  Start tpl (Environ (overlay Setenv tpl e)) = Success pid ->
  run' alone_to_the_end (start_state e [enter jobid tpl])
  = Some {| process_env := overlay Setenv tpl e;
            mutexes := [false];
            calls := [{| jobid := jobid; t := tpl;
                         at_pc := Returned (Success pid);
                         mtx := 0;
                         env := currentEnv Environ Getenv e |}];
            children := [(jobid, Environ (overlay Setenv tpl e))] |}.
Proof.
  intros Hv Hs. unfold alone_to_the_end, start_state, enter.
  cbn [run step nth_error calls at_pc Tracker.t]. rewrite Hv.
  cbn [run step nth_error calls at_pc Tracker.t set_nth goto mutexes
       List.length app mtx process_env children Tracker.jobid Tracker.env].
  rewrite Hs.
  cbn [run step nth_error calls at_pc Tracker.t set_nth goto mutexes
       List.length app mtx process_env children Tracker.jobid Tracker.env].
  rewrite restoreEnv_void. reflexivity.
Qed.

End OsLaws.

End Interleavings.

Arguments entered jobs : simpl never.

(** *** Examples in the environment kept as a list *)

(** As [list_Unsetenv], but a key that holds ['='] names no variable. *)
Definition unix_Unsetenv (key : string) (e : variables) : variables :=
  if Inception.Contains key "=" then e else list_Unsetenv key e.

Lemma Contains_append (a b : string) (sep : ascii) :
  Inception.Contains (a ++ String sep b) sep = true.
Proof.
  induction a as [|c a IH]; simpl.
  - rewrite Ascii.eqb_refl. reflexivity.
  - destruct (Ascii.eqb c sep); [reflexivity | exact IH].
Qed.

Lemma list_Environ_entries (e : variables) (x : string) :
  In x (list_Environ e) -> Inception.Contains x "=" = true.
Proof.
  unfold list_Environ. intros H. apply in_map_iff in H.
  destruct H as [[k v] [Hx _]]. subst x. apply Contains_append.
Qed.

Lemma list_Setenv_refuses (key value : string) (e : variables) :
  Inception.Contains key "=" = true -> list_Setenv key value e = e.
Proof.
  intros H. unfold list_Setenv. rewrite H, orb_true_r. reflexivity.
Qed.

Lemma unix_Unsetenv_finds_nothing (key : string) (e : variables) :
  Inception.Contains key "=" = true -> unix_Unsetenv key e = e.
Proof. intros H. unfold unix_Unsetenv. rewrite H. reflexivity. Qed.

(** A template without command, which [has_command] refuses. *)
Definition no_command : JobTemplate :=
  mkTemplate "" [] "" "" "" [("C", "3")].

Definition home : variables := [("HOME", "/root")].

(** Call 0 has locked its mutex; call 1 stands at its own [mtx.Lock()]. *)
Definition second_at_lock : state variables :=
  Eval vm_compute in
    match run list_Environ list_Getenv list_Setenv list_Unsetenv has_command
              starts [0; 0; 0; 1; 1]%nat
              (start_state home (entered [("1", job_a); ("2", job_b)])) with
    | Some s => s
    | None => start_state home []
    end.

Lemma StartProcess_never_waits_witness :
  exists s' : state variables,
    step list_Environ list_Getenv list_Setenv list_Unsetenv has_command starts
         second_at_lock 1 = Some s'.
Proof.
  eapply (StartProcess_never_waits variables list_Environ list_Getenv
            list_Setenv list_Unsetenv has_command starts home
            [("1", job_a); ("2", job_b)] [0; 0; 0; 1; 1]%nat
            second_at_lock 1).
  - reflexivity.
  - reflexivity.
  - intros r. discriminate.
Defined.

(** Job 2 has no command; it was refused between two statements of job 1. *)
Definition second_refused : state variables :=
  Eval vm_compute in
    match run list_Environ list_Getenv list_Setenv list_Unsetenv has_command
              starts [0; 1; 0]%nat
              (start_state home (entered [("1", job_a); ("2", no_command)])) with
    | Some s => s
    | None => start_state home []
    end.

Lemma invalid_template_returns_before_the_window_witness :
  exists c : call,
    nth_error (calls second_refused) 1 = Some c
    /\ in_window c = false
    /\ at_pc c = Returned (Failure "RemoteCommand not set").
Proof.
  apply (invalid_template_returns_before_the_window variables list_Environ
           list_Getenv list_Setenv list_Unsetenv has_command starts home
           [("1", job_a); ("2", no_command)] [0; 1; 0]%nat
           second_refused 1 "2" no_command "RemoteCommand not set").
  - reflexivity.
  - reflexivity.
  - reflexivity.
Defined.

(** A command that cannot be executed. *)
Definition never_starts (t : JobTemplate) (environ : list string)
  : fallible nat :=
  Failure "exec: not found".

Lemma failed_Start_leaves_the_overlay_witness :
  run list_Environ list_Getenv list_Setenv list_Unsetenv has_command
      never_starts alone_until_start_fails (start_state home [enter "1" job_a])
  = Some {| process_env := [("HOME", "/root"); ("A", "1")];
            mutexes := [false];
            calls := [{| jobid := "1"; t := job_a;
                         at_pc := Returned (Failure "exec: not found");
                         mtx := 0;
                         env := [("HOME=/root", "")] |}];
            children := [] |}.
Proof.
  apply (failed_Start_leaves_the_overlay variables list_Environ list_Getenv
           list_Setenv list_Unsetenv has_command never_starts home "1" job_a
           "exec: not found"); reflexivity.
Defined.

Lemma overlay_outlives_StartProcess_witness :
  run list_Environ list_Getenv list_Setenv unix_Unsetenv has_command starts
      alone_to_the_end (start_state home [enter "1" job_a])
  = Some {| process_env := [("HOME", "/root"); ("A", "1")];
            mutexes := [false];
            calls := [{| jobid := "1"; t := job_a;
                         at_pc := Returned (Success 1%nat);
                         mtx := 0;
                         env := [("HOME=/root", "")] |}];
            children := [("1", ["HOME=/root"; "A=1"])] |}.
Proof.
  apply (overlay_outlives_StartProcess variables list_Environ list_Getenv
           list_Setenv unix_Unsetenv has_command starts
           list_Environ_entries list_Setenv_refuses unix_Unsetenv_finds_nothing
           home "1" job_a 1%nat); reflexivity.
Defined.

End TrackerMore.
